(** * Minecraft mod side analyzer: classification, catalog matching, orchestration

    A shallow embedding of [minecraft-modSide-analyzer.py]: the manifest
    parsers, [read_metadata], [classify], the two templated link builders,
    the Modrinth matcher, and the asyncio orchestration of
    [ModAnalyzerThread] (semaphore, [gather], the text report).

    Conventions.
    - A Python [str] is the list of its code points ([Py.str]).  Literals are
      written as in the source and decoded from UTF-8 by [Py.lit].
    - Library functions whose full behaviour lies outside the program
      ([str.lower], [difflib.SequenceMatcher.ratio], [json.loads],
      [bytes.decode], the wording of the encoder's error) are the fields of
      the class [Builtins].
    - The float score of the matcher is read as an exact rational.
    - An exception is represented by its message, [str(e)]; where a handler
      discards the exception ([modrinth_link], [extract_icon_from_jar]) a
      raising step is [None].
    - What lies around a run is its [world]: the replies of the catalog, the
      outcome of [mkdir] and of [shutil.copy2], whether the output directory
      is there.  The listing and the archives do not change during a run. *)

From Stdlib Require Import QArith Lqa.
From stdpp Require Import gmap strings list sorting pretty.

(** ** Python strings *)

Module Py.

Definition str := list N.

(** UTF-8 decoding of a literal of this file into code points. *)
Fixpoint utf8_decode (bs : list N) : str :=
  match bs with
  | [] => []
  | b0 :: r0 =>
    if (b0 <? 128)%N then b0 :: utf8_decode r0
    else if (b0 <? 224)%N then
      match r0 with
      | b1 :: r1 => ((b0 - 192) * 64 + (b1 - 128))%N :: utf8_decode r1
      | _ => []
      end
    else if (b0 <? 240)%N then
      match r0 with
      | b1 :: b2 :: r2 =>
        ((b0 - 224) * 4096 + (b1 - 128) * 64 + (b2 - 128))%N :: utf8_decode r2
      | _ => []
      end
    else
      match r0 with
      | b1 :: b2 :: b3 :: r3 =>
        ((b0 - 240) * 262144 + (b1 - 128) * 4096 + (b2 - 128) * 64 + (b3 - 128))%N
          :: utf8_decode r3
      | _ => []
      end
  end.

Definition lit (s : string) : str :=
  utf8_decode (Ascii.N_of_ascii <$> String.list_ascii_of_string s).

(** UTF-8 encoding of one code point (used by percent-encoding). *)
Definition utf8_encode1 (c : N) : list N :=
  if (c <? 128)%N then [c]
  else if (c <? 2048)%N then [192 + c / 64; 128 + c mod 64]%N
  else if (c <? 65536)%N then
    [224 + c / 4096; 128 + (c / 64) mod 64; 128 + c mod 64]%N
  else
    [240 + c / 262144; 128 + (c / 4096) mod 64; 128 + (c / 64) mod 64;
     128 + c mod 64]%N.

(** [bool(s)] for a string: the empty string is falsy. *)
Definition truthy (s : str) : bool :=
  match s with [] => false | _ => true end.

(** [bool(v)] for an optional string: [None] and the empty string are
    falsy. *)
Definition truthy_opt (v : option str) : bool :=
  match v with Some s => truthy s | None => false end.

Definition eqb (a b : str) : bool := bool_decide (a = b).

(** [s.startswith(p)] *)
Fixpoint startswith (p s : str) : bool :=
  match p, s with
  | [], _ => true
  | _ :: _, [] => false
  | a :: p', b :: s' => (a =? b)%N && startswith p' s'
  end.

(** [p in s] *)
Fixpoint contains (p s : str) : bool :=
  startswith p s ||
  match s with
  | [] => false
  | _ :: s' => contains p s'
  end.

(** [s.endswith(p)] *)
Definition endswith (p s : str) : bool := startswith (rev p) (rev s).

(** The line boundaries of [str.splitlines]: LF, CR, VT, FF, FS, GS, RS,
    NEL (U+0085), LS (U+2028), PS (U+2029); CR LF counts as one. *)
Definition is_linebreak (c : N) : bool :=
  bool_decide (c ∈ [10; 11; 12; 13; 28; 29; 30; 133; 8232; 8233]%N).

Fixpoint splitlines_acc (cur : str) (s : str) : list str :=
  match s with
  | [] => match cur with [] => [] | _ => [rev cur] end
  | c :: rest =>
    if is_linebreak c then
      match c, rest with
      | 13%N, 10%N :: rest' => rev cur :: splitlines_acc [] rest'
      | _, _ => rev cur :: splitlines_acc [] rest
      end
    else splitlines_acc (c :: cur) rest
  end.

(** [s.splitlines()] *)
Definition splitlines (s : str) : list str := splitlines_acc [] s.

(** The surrogate code points U+D800 to U+DFFF.  A [str] may hold them (a
    file name with undecodable bytes, a JSON escape such as \udc80); the
    UTF-8 encoder refuses them. *)
Definition is_surrogate (c : N) : bool := (55296 <=? c)%N && (c <=? 57343)%N.

(** Whether [s.encode("utf-8")] returns: it raises UnicodeEncodeError
    exactly when [s] holds a surrogate. *)
Definition encodable (s : str) : bool := forallb (λ c, negb (is_surrogate c)) s.

(** [a <= b] on strings: lexicographic by code point. *)
Fixpoint leb (a b : str) : bool :=
  match a, b with
  | [], _ => true
  | _ :: _, [] => false
  | x :: a', y :: b' =>
    if (x <? y)%N then true
    else if (x =? y)%N then leb a' b'
    else false
  end.

End Py.

Global Arguments Py.lit : simpl never.

(** ** Exceptions and library functions *)

(** The result of a call that may raise; [Raise msg] carries [str(e)]. *)
Inductive outcome (A : Type) : Type :=
| Return (a : A)
| Raise (msg : Py.str).
Arguments Return {A} a.
Arguments Raise {A} msg.

(** What [data = json.loads(text)] followed by [data.get] can do:
    [json.loads] raises; the value is not an object, so that [data.get]
    raises with [msg]; or the value is an object, given by its string-valued
    members (a member that is absent or [null] has no binding).  Manifests
    in which one of the four members that the program reads has another
    type are not covered. *)
Inductive json_result : Type :=
| JsonError
| JsonNotObject (msg : Py.str)
| JsonObject (members : gmap string Py.str).

Class Builtins : Type := {
  (** [str.lower] *)
  lower : Py.str → Py.str;
  (** [SequenceMatcher(None, a, b).ratio()] *)
  ratio : Py.str → Py.str → Q;
  ratio_range : ∀ a b, (0 <= ratio a b <= 1)%Q;
  (** [json.loads] *)
  json_loads : Py.str → json_result;
  (** [bytes.decode("utf-8", errors="ignore")] *)
  decode_utf8_ignore : list Byte.byte → Py.str;
  (** [str(e)] for the UnicodeEncodeError that [f.write(s)] raises on a file
      opened with [encoding="utf-8"], for an [s] that holds a surrogate *)
  encode_error : Py.str → Py.str
}.

(** ** Data model *)

(** The three category strings returned by [classify]. *)
Inductive category : Type :=
| ServerSide
| ClientOnly
| ParseFailed.

Global Instance category_eq_dec : EqDecision category.
Proof. solve_decision. Defined.

Definition category_name (c : category) : Py.str :=
  match c with
  | ServerSide => Py.lit "服务端"
  | ClientOnly => Py.lit "仅客户端"
  | ParseFailed => Py.lit "解析失败"
  end.

(** The [meta] dictionary.  A key that is absent and a key bound to [None]
    are both [None] here ([meta.get] does not tell them apart); the other
    values are strings, as the members read from a manifest are;
    [client_only] is only ever bound to a [bool], and every dictionary the
    program builds binds ["name"]. *)
Record metadata : Type := {
  m_loader : option Py.str;
  m_id : option Py.str;
  m_name : Py.str;
  m_env : option Py.str;
  m_client_only : bool;
  m_icon : option Py.str
}.

(** One entry of a zip archive: its name and what [z.read(info)] gives. *)
Record zip_entry : Type := {
  filename : Py.str;
  contents : outcome (list Byte.byte)
}.

(** [zipfile.ZipFile(jar)] raises, or gives the entries in archive order. *)
Inductive archive : Type :=
| BadArchive (msg : Py.str)
| Archive (entries : list zip_entry).

(** A [Path] to a jar: [jar.name], [jar.stem] and the file behind it. *)
Record jar_path : Type := {
  jar_name : Py.str;
  jar_stem : Py.str;
  jar_zip : archive
}.

(** A JSON value as far as the matcher tells values apart: a string, or
    anything else ([null], a number, a boolean, an array, an object). *)
Inductive json_value : Type :=
| JString (s : Py.str)
| JOther.

(** One element of the [hits] list of a search response.  [slug] is
    [h.get("slug")] as far as the comparison with the identifier of the
    record, a string, can tell: [None] when the key is absent or bound to a
    value that is no string.  [title] is the binding of ["title"], [None]
    when the key is absent. *)
Record hit : Type := {
  slug : option Py.str;
  title : option json_value
}.

(** What [session.get(url, params=...)] and [r.json()] give: an exception
    (timeout, transport error), or a status with the decoded [hits]:
    [None] when decoding the body raises or the body is not an object whose
    ["hits"] member, if any, is a list of objects (then [data.get], the
    iteration or [h.get] raises), the empty list when the object has no
    such member. *)
Inductive reply : Type :=
| NoReply
| Reply (status : Z) (hits : option (list hit)).

(** The aiohttp session, as far as the program uses it: the reply to a
    search for a query string. *)
Definition session : Type := Py.str → reply.

Record links : Type := {
  l_curseforge : Py.str;
  l_modrinth : option Py.str;
  l_mcmod : Py.str
}.

(** The [mod_info] dictionary appended to [all_mods]. *)
Record mod_info : Type := {
  mi_name : Py.str;
  mi_category : category;
  mi_links : links;
  mi_error : option Py.str;
  mi_icon_data : option (list Byte.byte)
}.

(** ** Utility functions *)

(** The character class of [clean_json]: \x00-\x08, \x0B, \x0C,
    \x0E-\x1F. *)
Definition is_control (c : N) : bool :=
  (c <=? 8)%N || (c =? 11)%N || (c =? 12)%N || ((14 <=? c)%N && (c <=? 31)%N).

Definition clean_json (text : Py.str) : Py.str :=
  filter (λ c, is_control c = false) text.

Definition safe_decode `{Builtins} (data : list Byte.byte) : Py.str :=
  decode_utf8_ignore data.

Definition similarity `{Builtins} (a b : Py.str) : Q :=
  ratio (lower a) (lower b).

Definition curseforge_link (name : Py.str) : Py.str :=
  Py.lit "https://www.curseforge.com/minecraft/mc-mods/" ++ name.

Definition mcmod_link (name : Py.str) : Py.str :=
  Py.lit "https://search.mcmod.cn/s?key=" ++ name.

(** [extract_icon_from_jar]: any exception gives [None].  [z.read(name)]
    resolves a name to the last entry that bears it. *)
Definition extract_icon_from_jar (jar : jar_path) (icon_path : Py.str)
    : option (list Byte.byte) :=
  match jar_zip jar with
  | BadArchive _ => None
  | Archive entries =>
    match list_find (λ e, filename e = icon_path) (reverse entries) with
    | Some (_, e) =>
      match contents e with
      | Return data => Some data
      | Raise _ => None
      end
    | None => None
    end
  end.

(** ** Parsing a mod *)

Definition parse_fabric `{Builtins} (text : Py.str) (jar_name : Py.str)
    : outcome (option metadata) :=
  match json_loads (clean_json text) with
  | JsonError => Return None
  | JsonNotObject msg => Raise msg
  | JsonObject data =>
    let env := default (Py.lit "*") (data !! "environment") in
    let mod_id := data !! "id" in
    let mod_name :=
      if Py.truthy_opt (data !! "name") then default [] (data !! "name")
      else jar_name in
    let icon := data !! "icon" in
    Return (Some {| m_loader := Some (Py.lit "fabric"); m_id := mod_id;
                    m_name := mod_name; m_env := Some env;
                    m_client_only := false; m_icon := icon |})
  end.

(** The condition tested on each line by [parse_forge]. *)
Definition declares_client_only `{Builtins} (line : Py.str) : Prop :=
  Py.contains (Py.lit "clientOnly") line = true
  ∧ Py.contains (Py.lit "true") (lower line) = true.

(** The body of the loop of [parse_forge]. *)
Definition forge_line `{Builtins} (client_only : bool) (line : Py.str) : bool :=
  if Py.contains (Py.lit "clientOnly") line
     && Py.contains (Py.lit "true") (lower line)
  then true else client_only.

Definition parse_forge `{Builtins} (text : Py.str) (jar_name : Py.str)
    : option metadata :=
  let client_only := fold_left forge_line (Py.splitlines text) false in
  Some {| m_loader := Some (Py.lit "forge"); m_client_only := client_only;
          m_id := None; m_name := jar_name; m_icon := None; m_env := None |}.

(** [{"loader": None, "id": None, "name": jar.stem}] *)
Definition no_loader (stem : Py.str) : metadata :=
  {| m_loader := None; m_id := None; m_name := stem; m_env := None;
     m_client_only := false; m_icon := None |}.

(** [None if meta else msg] *)
Definition diagnostic_unless (meta : option metadata) (msg : Py.str)
    : option Py.str :=
  match meta with Some _ => None | None => Some msg end.

(** The loop of [read_metadata] over [z.infolist()]; an exception raised
    inside it is caught by the handler of [read_metadata]. *)
Fixpoint scan_entries `{Builtins} (stem : Py.str) (entries : list zip_entry)
    : option metadata * option Py.str :=
  match entries with
  | [] => (Some (no_loader stem), Some (Py.lit "未找到mods.toml或fabric.mod.json"))
  | info :: rest =>
    if Py.endswith (Py.lit "fabric.mod.json") (filename info) then
      match contents info with
      | Raise e => (Some (no_loader stem), Some e)
      | Return data =>
        match parse_fabric (safe_decode data) stem with
        | Raise e => (Some (no_loader stem), Some e)
        | Return meta =>
          (meta, diagnostic_unless meta (Py.lit "fabric.mod.json解析失败"))
        end
      end
    else if Py.endswith (Py.lit "mods.toml") (filename info) then
      match contents info with
      | Raise e => (Some (no_loader stem), Some e)
      | Return data =>
        let meta := parse_forge (safe_decode data) stem in
        (meta, diagnostic_unless meta (Py.lit "mods.toml解析失败"))
      end
    else scan_entries stem rest
  end.

Definition read_metadata `{Builtins} (jar : jar_path)
    : option metadata * option Py.str :=
  match jar_zip jar with
  | BadArchive e => (Some (no_loader (jar_stem jar)), Some e)
  | Archive entries => scan_entries (jar_stem jar) entries
  end.

Definition classify (meta : option metadata) : category :=
  match meta with
  | None => ParseFailed
  | Some meta =>
    if bool_decide (m_loader meta = Some (Py.lit "fabric")) then
      if bool_decide (m_env meta = Some (Py.lit "client")) then ClientOnly
      else ServerSide
    else if bool_decide (m_loader meta = Some (Py.lit "forge")) then
      if m_client_only meta then ClientOnly
      else ServerSide
    else if bool_decide (m_loader meta = None) then ParseFailed
    else ServerSide
  end.

(** ** Modrinth matcher *)

Definition Qltb (a b : Q) : bool := negb (Qle_bool b a).

(** [h.get("title", "")] when it is a string: the default for a missing
    key, the title itself, or nothing for a title that is no string. *)
Definition title_text (h : hit) : option Py.str :=
  match title h with
  | None => Some []
  | Some (JString t) => Some t
  | Some JOther => None
  end.

(** The score of one hit, as the loop body of [modrinth_link] computes it
    (lines 107-110) from a title that is a string or is missing.  For any
    other title line 110 raises and there is no score: see [loop_body], the
    only place where [modrinth_link] asks for a score. *)
Definition hit_score `{Builtins} (meta : metadata) (h : hit) : Q :=
  let score := 0%Q in
  let score :=
    if Py.truthy_opt (m_id meta) && bool_decide (slug h = m_id meta)
    then (score + 100)%Q else score in
  (score + similarity (m_name meta) (default [] (title_text h)) * 50)%Q.

(** The update at the end of an iteration:
    [if score > best_score: best = h; best_score = score]. *)
Definition pick `{Builtins} (meta : metadata) (st : option hit * Q) (h : hit)
    : option hit * Q :=
  let score := hit_score meta h in
  if Qltb (snd st) score then (Some h, score) else st.

(** [best, best_score] after the loop over [hits], when no iteration
    raises. *)
Definition best_hit `{Builtins} (meta : metadata) (hits : list hit)
    : option hit * Q :=
  fold_left (pick meta) hits (None, 0%Q).

(** One iteration of the loop (lines 107-113).  [similarity] calls [lower]
    on the title: for a title that is no string this raises AttributeError
    ([None] here; the handler of [modrinth_link] does not look at the
    exception). *)
Definition loop_body `{Builtins} (meta : metadata) (st : option hit * Q) (h : hit)
    : option (option hit * Q) :=
  match title_text h with
  | Some _ => Some (pick meta st h)
  | None => None
  end.

(** The loop [for h in hits], from [best, best_score = st]; [None] when an
    iteration raises. *)
Fixpoint scoring_loop `{Builtins} (meta : metadata) (hits : list hit)
    (st : option hit * Q) : option (option hit * Q) :=
  match hits with
  | [] => Some st
  | h :: rest =>
    match loop_body meta st h with
    | Some st' => scoring_loop meta rest st'
    | None => None
    end
  end.

(** [meta.get("id") or meta.get("name")] *)
Definition search_query (meta : metadata) : Py.str :=
  if Py.truthy_opt (m_id meta) then default [] (m_id meta)
  else m_name meta.

(** [modrinth_link]: every exception raised inside the [try] block, the one
    of the scoring loop included, ends in [return None].  A best hit that
    reaches the threshold has the identifier of the record as its slug
    ([link_needs_identifier] below), so that [best['slug']] is a string
    whenever it is read. *)
Definition modrinth_link `{Builtins} (meta : metadata) (s : session)
    : option Py.str :=
  let query := search_query meta in
  if negb (Py.truthy query) then None
  else
    match s query with
    | NoReply => None
    | Reply status data =>
      if negb (status =? 200)%Z then None
      else
        match data with
        | None => None
        | Some hits =>
          match scoring_loop meta hits (None, 0%Q) with
          | None => None
          | Some (best, best_score) =>
            if Qle_bool 60 best_score then
              match best with
              | Some h =>
                match slug h with
                | Some sl => Some (Py.lit "https://modrinth.com/mod/" ++ sl)
                | None => None
                end
              | None => None
              end
            else None
          end
        end
    end.

(** ** The worker thread *)

Record config : Type := {
  gen_folder : bool;
  gen_log : bool;
  max_threads : nat
}.

(** The body of [process_jar_with_sem] has [try]/[finally] but no handler
    of its own: an exception raised by one of its statements outside
    [read_metadata], [modrinth_link], [extract_icon_from_jar] and the copy
    step (a signal emission, say) leaves the task.  A [fault] says where:
    before or after the record has been appended to [all_mods]. *)
Inductive fault : Type :=
| BeforeAppend (msg : Py.str)
| AfterAppend (msg : Py.str).

(** What surrounds one run: the remote catalog, the faults (by [jar.name]),
    the outcome of [shutil.copy2] (by [jar.name]; [Some e] when it raises),
    the outcome of the three calls of [mkdir] of lines 155-157 ([Some e]
    when one of them raises, as in a script directory that cannot be
    written) and whether the output directory exists before the run. *)
Record world : Type := {
  w_session : session;
  w_fault : Py.str → option fault;
  w_copy2 : Py.str → option Py.str;
  w_mkdir : option Py.str;
  w_out_dir_exists : bool
}.

(** The fields of the thread object that the tasks write, and the signals
    they emit: [all_mods], the [log_signal] messages with their colour, the
    [update_progress] pairs, and the archives copied with their category. *)
Record thread_state : Type := {
  all_mods : list mod_info;
  log : list (Py.str * Py.str);
  progress : list (nat * nat);
  copied : list (Py.str * category)
}.

Definition emit_log (msg color : Py.str) (st : thread_state) : thread_state :=
  {| all_mods := all_mods st; log := log st ++ [(msg, color)];
     progress := progress st; copied := copied st |}.

Definition append_mod (m : mod_info) (st : thread_state) : thread_state :=
  {| all_mods := all_mods st ++ [m]; log := log st;
     progress := progress st; copied := copied st |}.

Definition emit_progress (total : nat) (st : thread_state) : thread_state :=
  {| all_mods := all_mods st; log := log st;
     progress := progress st ++ [(length (all_mods st), total)];
     copied := copied st |}.

Definition record_copy (name : Py.str) (c : category) (st : thread_state)
    : thread_state :=
  {| all_mods := all_mods st; log := log st;
     progress := progress st; copied := copied st ++ [(name, c)] |}.

Definition color_of (c : category) : Py.str :=
  match c with
  | ServerSide => Py.lit "green"
  | ClientOnly => Py.lit "orange"
  | ParseFailed => Py.lit "red"
  end.

(** The record built for one archive (lines 203-221). *)
Definition make_mod_info `{Builtins} (s : session) (jar : jar_path) : mod_info :=
  let '(meta, error) := read_metadata jar in
  let category := classify meta in
  let name_for_link :=
    match meta with Some m => m_name m | None => jar_stem jar end in
  let cf_link := curseforge_link name_for_link in
  let mc_link := mcmod_link name_for_link in
  let mr_link :=
    match meta with Some m => modrinth_link m s | None => None end in
  let icon_data :=
    match meta with
    | Some m =>
      if Py.truthy_opt (m_icon m) then
        match extract_icon_from_jar jar (default [] (m_icon m)) with
        | Some (b :: data) => Some (b :: data)
        | _ => None
        end
      else None
    | None => None
    end in
  {| mi_name := jar_name jar; mi_category := category;
     mi_links := {| l_curseforge := cf_link; l_modrinth := mr_link;
                    l_mcmod := mc_link |};
     mi_error := error; mi_icon_data := icon_data |}.

(** The message of line 213. *)
Definition status_line (m : mod_info) : Py.str :=
  let status_text :=
    if Py.truthy_opt (mi_error m)
    then category_name (mi_category m) ++ Py.lit " (" ++ default [] (mi_error m)
           ++ Py.lit ")"
    else category_name (mi_category m) in
  mi_name m ++ Py.lit " → " ++ status_text.

(** The [try] block of [process_jar_with_sem]. *)
Definition try_block `{Builtins} (cfg : config) (w : world) (jar : jar_path)
    (st : thread_state) : thread_state * outcome () :=
  let m := make_mod_info (w_session w) jar in
  match w_fault w (jar_name jar) with
  | Some (BeforeAppend e) => (st, Raise e)
  | flt =>
    let st := emit_log (status_line m) (color_of (mi_category m)) st in
    let st := append_mod m st in
    match flt with
    | Some (AfterAppend e) => (st, Raise e)
    | _ =>
      if gen_folder cfg then
        match w_copy2 w (jar_name jar) with
        | Some e =>
          (emit_log (Py.lit "⚠ 复制失败: " ++ jar_name jar ++ Py.lit " → " ++ e)
                    (Py.lit "red") st, Return ())
        | None => (record_copy (jar_name jar) (mi_category m) st, Return ())
        end
      else (st, Return ())
    end
  end.

(** [process_jar_with_sem] between acquiring and releasing the semaphore:
    the [try] block, then the [finally] clause.  The acquisition and the
    release are events of the loop below. *)
Definition process_jar_with_sem `{Builtins} (cfg : config) (w : world) (total : nat)
    (jar : jar_path) (st : thread_state) : thread_state * outcome () :=
  let '(st, res) := try_block cfg w jar st in
  (emit_progress total st, res).

(** ** The event loop

    [asyncio.gather] turns each coroutine into a task.  A task is suspended
    at [async with sem] until a slot is free, and once more inside
    [modrinth_link]; nothing the task does before that second suspension
    touches shared state.  So a run is a sequence of two kinds of events:
    task [i] acquires the semaphore, task [i] runs to its end and releases
    it.  Any waiting task may acquire a free slot (asyncio serves waiters
    first-come first-served, one of the orders allowed here). *)

Inductive task_state : Type :=
| Waiting
| Holding
| Done
| Failed (msg : Py.str).

Global Instance task_state_eq_dec : EqDecision task_state.
Proof. solve_decision. Defined.

Record loop_state : Type := {
  sem_value : nat;
  tasks : list task_state;
  self : thread_state;
  raised : option Py.str
}.

Inductive event : Type :=
| Acquire (i : nat)
| Finish (i : nat).

Definition initial (cfg : config) (jars : list jar_path) : loop_state :=
  {| sem_value := max_threads cfg;
     tasks := replicate (length jars) Waiting;
     self := {| all_mods := []; log := []; progress := []; copied := [] |};
     raised := None |}.

Definition step `{Builtins} (cfg : config) (w : world) (jars : list jar_path)
    (ev : event) (s : loop_state) : option loop_state :=
  match ev with
  | Acquire i =>
    match tasks s !! i, sem_value s with
    | Some Waiting, S v =>
      Some {| sem_value := v; tasks := <[i := Holding]> (tasks s);
              self := self s; raised := raised s |}
    | _, _ => None
    end
  | Finish i =>
    match tasks s !! i, jars !! i with
    | Some Holding, Some jar =>
      let '(st, res) := process_jar_with_sem cfg w (length jars) jar (self s) in
      Some {| sem_value := S (sem_value s);
              tasks := <[i := match res with
                              | Return _ => Done
                              | Raise e => Failed e
                              end]> (tasks s);
              self := st;
              raised := match raised s, res with
                        | Some e, _ => Some e
                        | None, Raise e => Some e
                        | None, Return _ => None
                        end |}
    | _, _ => None
    end
  end.

Fixpoint exec `{Builtins} (cfg : config) (w : world) (jars : list jar_path)
    (sched : list event) (s : loop_state) : option loop_state :=
  match sched with
  | [] => Some s
  | ev :: sched' =>
    match step cfg w jars ev s with
    | Some s' => exec cfg w jars sched' s'
    | None => None
    end
  end.

(** The number of tasks inside [async with sem]. *)
Definition holding (s : loop_state) : nat :=
  length (filter (λ t, t = Holding) (tasks s)).

(** ** The text report *)

Definition nl : Py.str := [10%N].

(** [sorted(l, key=...)]: the stable sort by key. *)
Fixpoint insert_by {A} (key : A → Py.str) (x : A) (l : list A) : list A :=
  match l with
  | [] => [x]
  | y :: l' =>
    if Py.leb (key x) (key y) then x :: l else y :: insert_by key x l'
  end.

Definition sorted {A} (key : A → Py.str) (l : list A) : list A :=
  foldr (insert_by key) [] l.

(** [str(x)] of an optional string, as an f-string prints it. *)
Definition format_opt (v : option Py.str) : Py.str :=
  match v with Some s => s | None => Py.lit "None" end.

(** Lines 191-196. *)
Definition item_line (sec : category) (m : mod_info) : Py.str :=
  Py.lit "[" ++ category_name sec ++ Py.lit "] " ++ mi_name m
  ++ (if Py.truthy_opt (mi_error m)
      then Py.lit " (" ++ default [] (mi_error m) ++ Py.lit ")" else [])
  ++ Py.lit " | CF: " ++ l_curseforge (mi_links m)
  ++ Py.lit " | MR: " ++ format_opt (l_modrinth (mi_links m))
  ++ Py.lit " | MC: " ++ l_mcmod (mi_links m) ++ nl.

(** [sections[sec]] *)
Definition section_of (sec : category) (mods : list mod_info) : list mod_info :=
  filter (λ m, mi_category m = sec) mods.

Definition bucket `{Builtins} (sec : category) (mods : list mod_info)
    : list mod_info :=
  sorted (λ x, lower (mi_name x)) (section_of sec mods).

Definition section_text `{Builtins} (mods : list mod_info) (sec : category)
    : Py.str :=
  nl ++ Py.lit "===== " ++ category_name sec ++ Py.lit " =====" ++ nl ++ nl
  ++ concat (item_line sec <$> bucket sec mods).

Definition preamble : Py.str :=
  Py.lit "===== 重要提示 =====" ++ nl
  ++ Py.lit "1. 端属分类是从模组文件中解析，可靠性较高，但不一定完全准确" ++ nl
  ++ Py.lit "2. 由于未使用官方API，模组页面链接（CurseForge、Modrinth）可能不准确" ++ nl
  ++ Py.lit "3. 最终分类建议结合官方文档或实际测试确认" ++ nl ++ nl
  ++ Py.lit "===== 作者信息 =====" ++ nl
  ++ Py.lit "作者: 茶清墨刂" ++ nl
  ++ Py.lit "主页: https://space.bilibili.com/388428308" ++ nl
  ++ Py.lit "GitHub: https://github.com/chaqingmodiao/minecraft-mod-analyzer" ++ nl
  ++ Py.lit "使用AI进行开发" ++ nl
  ++ Py.lit "版本: 0.3.0-2026.1.3" ++ nl ++ nl.

(** Everything written to the log file. *)
Definition report_text `{Builtins} (mods : list mod_info) : Py.str :=
  preamble
  ++ concat (section_text mods <$> [ServerSide; ClientOnly; ParseFailed]).

(** The same text as the program hands it over: the arguments of the
    successive calls of [f.write] (lines 175-196). *)
Definition preamble_pieces : list Py.str :=
  [ Py.lit "===== 重要提示 =====" ++ nl;
    Py.lit "1. 端属分类是从模组文件中解析，可靠性较高，但不一定完全准确" ++ nl;
    Py.lit "2. 由于未使用官方API，模组页面链接（CurseForge、Modrinth）可能不准确" ++ nl;
    Py.lit "3. 最终分类建议结合官方文档或实际测试确认" ++ nl ++ nl;
    Py.lit "===== 作者信息 =====" ++ nl;
    Py.lit "作者: 茶清墨刂" ++ nl;
    Py.lit "主页: https://space.bilibili.com/388428308" ++ nl;
    Py.lit "GitHub: https://github.com/chaqingmodiao/minecraft-mod-analyzer" ++ nl;
    Py.lit "使用AI进行开发" ++ nl;
    Py.lit "版本: 0.3.0-2026.1.3" ++ nl ++ nl ].

Definition item_pieces (sec : category) (m : mod_info) : list Py.str :=
  [ Py.lit "[" ++ category_name sec ++ Py.lit "] " ++ mi_name m ]
  ++ (if Py.truthy_opt (mi_error m)
      then [ Py.lit " (" ++ default [] (mi_error m) ++ Py.lit ")" ] else [])
  ++ [ Py.lit " | CF: " ++ l_curseforge (mi_links m);
       Py.lit " | MR: " ++ format_opt (l_modrinth (mi_links m));
       Py.lit " | MC: " ++ l_mcmod (mi_links m) ++ nl ].

Definition section_pieces `{Builtins} (mods : list mod_info) (sec : category)
    : list Py.str :=
  (nl ++ Py.lit "===== " ++ category_name sec ++ Py.lit " =====" ++ nl ++ nl)
  :: (m ← bucket sec mods; item_pieces sec m).

Definition report_pieces `{Builtins} (mods : list mod_info) : list Py.str :=
  preamble_pieces
  ++ (sec ← [ServerSide; ClientOnly; ParseFailed]; section_pieces mods sec).

(** The body of [with open(...) as f]: the file encodes each piece as it is
    written, so the first piece that holds a surrogate raises
    UnicodeEncodeError and ends the block; the file is then left cut off
    before that piece. *)
Definition write_report `{Builtins} (mods : list mod_info) : outcome Py.str :=
  match list_find (λ p, Py.encodable p = false) (report_pieces mods) with
  | Some (_, p) => Raise (encode_error p)
  | None => Return (concat (report_pieces mods))
  end.

(** A record whose line of the report can be encoded. *)
Definition writable (m : mod_info) : bool :=
  Py.encodable (item_line (mi_category m) m).

(** ** [analyze_mods] *)

(** How a run of [analyze_mods] ends: by returning or with an exception;
    the thread object at that point; the text of the log file, when all of
    it has been written; and whether [finished_dir] has been emitted. *)
Record run_result : Type := {
  r_outcome : outcome ();
  r_state : thread_state;
  r_report : option Py.str;
  r_finished_dir : bool
}.

Definition all_done (s : loop_state) : bool :=
  forallb (λ t, bool_decide (t = Done)) (tasks s).

(** [analyze_mods] along a schedule of the event loop.  [None] when the
    schedule is not a run of the loop, or stops while [gather] still waits.
    With the folder option on, the output folders are made before the loop
    starts; an exception of [mkdir] ends the run there.  [gather] re-raises
    the first exception of a task to its caller; it returns once every task
    has returned.  The log file is opened in the output directory, which
    only the folder option creates, and written piece by piece. *)
Definition analyze_mods `{Builtins} (cfg : config) (w : world)
    (jars : list jar_path) (sched : list event) : option run_result :=
  let total := length jars in
  if bool_decide (total = 0) then
    Some {| r_outcome := Return ();
            r_state := {| all_mods := [];
                          log := [(Py.lit "❌ 未找到 Jar 文件", Py.lit "red")];
                          progress := []; copied := [] |};
            r_report := None; r_finished_dir := false |}
  else
    match (if gen_folder cfg then w_mkdir w else None) with
    | Some e =>
      Some {| r_outcome := Raise e; r_state := self (initial cfg jars);
              r_report := None; r_finished_dir := false |}
    | None =>
      match exec cfg w jars sched (initial cfg jars) with
      | None => None
      | Some s =>
        match raised s with
        | Some e =>
          Some {| r_outcome := Raise e; r_state := self s;
                  r_report := None; r_finished_dir := false |}
        | None =>
          if all_done s then
            if gen_log cfg then
              if gen_folder cfg || w_out_dir_exists w then
                match write_report (all_mods (self s)) with
                | Return text =>
                  Some {| r_outcome := Return (); r_state := self s;
                          r_report := Some text; r_finished_dir := true |}
                | Raise e =>
                  Some {| r_outcome := Raise e; r_state := self s;
                          r_report := None; r_finished_dir := false |}
                end
              else
                Some {| r_outcome := Raise (Py.lit "[Errno 2] No such file or directory");
                        r_state := self s;
                        r_report := None; r_finished_dir := false |}
            else
              Some {| r_outcome := Return (); r_state := self s;
                      r_report := None; r_finished_dir := true |}
          else None
        end
      end
    end.

(** ** The wording of the specification, for comparison *)

(** "URL-encoded": percent-encoding (RFC 3986) of every code point outside
    the unreserved set, through its UTF-8 bytes. *)
Definition unreserved (c : N) : bool :=
  ((65 <=? c)%N && (c <=? 90)%N) || ((97 <=? c)%N && (c <=? 122)%N)
  || ((48 <=? c)%N && (c <=? 57)%N)
  || bool_decide (c ∈ [45; 46; 95; 126]%N).

Definition hex_digit (n : N) : N :=
  if (n <? 10)%N then (48 + n)%N else (55 + n)%N.

Definition percent_encode (c : N) : Py.str :=
  if unreserved c then [c]
  else b ← Py.utf8_encode1 c; [37%N; hex_digit (b / 16); hex_digit (b mod 16)].

Definition url_encoded (name : Py.str) : Py.str :=
  name ≫= percent_encode.

Definition spec_curseforge_link (name : Py.str) : Py.str :=
  Py.lit "https://www.curseforge.com/minecraft/mc-mods/" ++ url_encoded name.

Definition spec_mcmod_link (name : Py.str) : Py.str :=
  Py.lit "https://search.mcmod.cn/s?key=" ++ url_encoded name.

(** The export line as the specification words it:
    [[<category>] <name>[ (<diagnostic>)] | <A> | <B-or-empty> | <C-or-empty>],
    a missing link being an empty field. *)
Definition spec_item_line (sec : category) (m : mod_info) : Py.str :=
  Py.lit "[" ++ category_name sec ++ Py.lit "] " ++ mi_name m
  ++ (if Py.truthy_opt (mi_error m)
      then Py.lit " (" ++ default [] (mi_error m) ++ Py.lit ")" else [])
  ++ Py.lit " | " ++ l_curseforge (mi_links m)
  ++ Py.lit " | " ++ default [] (l_modrinth (mi_links m))
  ++ Py.lit " | " ++ l_mcmod (mi_links m) ++ nl.

(** ** A small instance of the library functions

    Used to evaluate the program on concrete inputs: lower-casing of ASCII
    letters, a ratio that is 1 on equal strings and 0 otherwise, a JSON
    reader that accepts nothing, and decoding of well-formed UTF-8.  The
    lower-casing and the decoding agree with Python on ASCII text, the ratio
    is a stand-in within the range of the real one, and the archives of the
    examples below carry no Fabric manifest.  The message of the encoder is
    the one of CPython for a lone surrogate. *)

Definition ascii_lower (s : Py.str) : Py.str :=
  (λ c, if (65 <=? c)%N && (c <=? 90)%N then (c + 32)%N else c) <$> s.

Definition equal_ratio (a b : Py.str) : Q :=
  if bool_decide (a = b) then 1%Q else 0%Q.

Definition equal_ratio_range a b : (0 <= equal_ratio a b <= 1)%Q :=
  ltac:(unfold equal_ratio; case_bool_decide; split; discriminate).

(** The message of the encoder for a text whose first surrogate is alone:
    the code point in four hexadecimal digits and its index. *)
Definition hex_lower (n : N) : N :=
  if (n <? 10)%N then (48 + n)%N else (87 + n)%N.

Definition surrogates_not_allowed (s : Py.str) : Py.str :=
  match list_find (λ c, Py.is_surrogate c = true) s with
  | Some (i, c) =>
    Py.lit "'utf-8' codec can't encode character '\ud"
    ++ [hex_lower ((c / 256) mod 16); hex_lower ((c / 16) mod 16);
        hex_lower (c mod 16)]
    ++ Py.lit "' in position " ++ Py.lit (pretty i)
    ++ Py.lit ": surrogates not allowed"
  | None => []
  end.

Definition ascii_builtins : Builtins :=
  {| lower := ascii_lower;
     ratio := equal_ratio;
     ratio_range := equal_ratio_range;
     json_loads := λ _, JsonError;
     decode_utf8_ignore := λ data, Py.utf8_decode (Byte.to_N <$> data);
     encode_error := surrogates_not_allowed |}.

(** Inputs of the examples. *)

Definition quilt_meta : metadata :=
  {| m_loader := Some (Py.lit "quilt"); m_id := Some (Py.lit "examplemod");
     m_name := Py.lit "Example Mod"; m_env := None; m_client_only := false;
     m_icon := None |}.

Definition bytes_of (s : string) : list Byte.byte :=
  Ascii.byte_of_ascii <$> String.list_ascii_of_string s.

(** An archive whose only entry is META-INF/mods.toml with the given text. *)
Definition forge_jar (file : string) (toml : string) : jar_path :=
  {| jar_name := Py.lit file ++ Py.lit ".jar"; jar_stem := Py.lit file;
     jar_zip := Archive [ {| filename := Py.lit "META-INF/mods.toml";
                             contents := Return (bytes_of toml) |} ] |}.

(** The same archive when reading the entry raises (a bad checksum). *)
Definition damaged_forge_jar : jar_path :=
  {| jar_name := Py.lit "damaged.jar"; jar_stem := Py.lit "damaged";
     jar_zip := Archive [ {| filename := Py.lit "META-INF/mods.toml";
                             contents := Raise (Py.lit "Bad CRC-32 for file 'META-INF/mods.toml'") |} ] |}.

Definition offline : session := λ _, NoReply.

(** A Fabric record with the identifier sodium, a hit with a title, and a
    hit whose title is [null]. *)
Definition sodium_meta : metadata :=
  {| m_loader := Some (Py.lit "fabric"); m_id := Some (Py.lit "sodium");
     m_name := Py.lit "Sodium"; m_env := Some (Py.lit "client");
     m_client_only := false; m_icon := None |}.

Definition titled (slug title : string) : hit :=
  {| slug := Some (Py.lit slug); title := Some (JString (Py.lit title)) |}.

Definition untitled (slug : string) : hit :=
  {| slug := Some (Py.lit slug); title := Some JOther |}.

Definition quiet_world : world :=
  {| w_session := offline; w_fault := λ _, None; w_copy2 := λ _, None;
     w_mkdir := None; w_out_dir_exists := false |}.

(** A world in which the task of [name] raises [msg] at the given point. *)
Definition faulty_world (name : Py.str) (f : fault) : world :=
  {| w_session := offline;
     w_fault := λ n, if bool_decide (n = name) then Some f else None;
     w_copy2 := λ _, None; w_mkdir := None; w_out_dir_exists := false |}.

Definition default_config : config :=
  {| gen_folder := true; gen_log := true; max_threads := 5 |}.

(** The schedule that runs the tasks one after the other. *)
Definition sequential (n : nat) : list event :=
  i ← seq 0 n; [Acquire i; Finish i].

Definition two_workers : config :=
  {| gen_folder := true; gen_log := true; max_threads := 2 |}.

Definition three_jars : list jar_path :=
  [forge_jar "alpha" "clientOnly=true"; forge_jar "beta" "modLoader=javafml";
   forge_jar "gamma" "clientOnly=false"].

(** A fault as PyQt reports it when the thread object is gone. *)
Definition deleted_object : Py.str :=
  Py.lit "wrapped C/C++ object of type ModAnalyzerThread has been deleted".

Definition two_jars : list jar_path :=
  [forge_jar "alpha" "clientOnly=true"; forge_jar "beta" "modLoader=javafml"].

(** ** Notions used in the statements *)

Definition fault_message (f : fault) : Py.str :=
  match f with BeforeAppend e => e | AfterAppend e => e end.

(** The records of the tasks that have returned, in archive order. *)
Fixpoint done_records `{Builtins} (s : session) (ts : list task_state)
    (jars : list jar_path) : list mod_info :=
  match ts, jars with
  | t :: ts', jar :: jars' =>
    (if decide (t = Done) then [make_mod_info s jar] else [])
    ++ done_records s ts' jars'
  | _, _ => []
  end.

(** A zip entry that [read_metadata] passes over. *)
Definition not_a_manifest (e : zip_entry) : Prop :=
  Py.endswith (Py.lit "fabric.mod.json") (filename e) = false
  ∧ Py.endswith (Py.lit "mods.toml") (filename e) = false.

(** The identifier test of the loop body of [modrinth_link]. *)
Definition slug_matches (meta : metadata) (h : hit) : bool :=
  Py.truthy_opt (m_id meta) && bool_decide (slug h = m_id meta).

(** The order of a sort key, as a relation. *)
Definition key_le {A} (key : A → Py.str) (a b : A) : Prop :=
  Py.leb (key a) (key b) = true.

(** The order in which a bucket of the report is sorted. *)
Definition name_le `{Builtins} : mod_info → mod_info → Prop :=
  key_le (λ x, lower (mi_name x)).

(** A record as the program builds it for an archive named sodium.jar when
    the catalog gives no link. *)
Definition sodium_info : mod_info :=
  @make_mod_info ascii_builtins offline (forge_jar "sodium" "modLoader=javafml").

(** ** The link row of the table

    [on_mod] adds one button per catalog, in the order curseforge,
    modrinth, mcmod; a button is enabled when its link is truthy
    ([if url:]), and the label "无链接" is added when no link is
    ([not any(mod_info["links"].values())]). *)

Definition link_enabled (m : mod_info) : list bool :=
  [Py.truthy (l_curseforge (mi_links m));
   Py.truthy_opt (l_modrinth (mi_links m));
   Py.truthy (l_mcmod (mi_links m))].

Definition no_links_label (m : mod_info) : bool :=
  negb (existsb (λ b, b) (link_enabled m)).

(** ** Further notions used in the statements *)

(** A task that has left [async with sem], by returning or by raising. *)
Definition is_finished (t : task_state) : bool :=
  match t with
  | Done | Failed _ => true
  | Waiting | Holding => false
  end.

Definition finished (s : loop_state) : nat :=
  length (filter (λ t, is_finished t = true) (tasks s)).

(** The archives of the tasks that end along a schedule, in that order. *)
Definition finished_jars (jars : list jar_path) (sched : list event)
    : list jar_path :=
  omap (λ ev, match ev with
              | Finish i => jars !! i
              | Acquire _ => None
              end) sched.

(** Whether the task of an archive gets as far as appending its record. *)
Definition appends (w : world) (jar : jar_path) : bool :=
  match w_fault w (jar_name jar) with
  | Some (BeforeAppend _) => false
  | _ => true
  end.

(** The number of tasks still in front of [async with sem]. *)
Definition waiting (s : loop_state) : nat :=
  length (filter (λ t, t = Waiting) (tasks s)).

(** A Fabric manifest, the object [json.loads] makes of it, and an instance
    of the library functions whose JSON reader knows this text. *)
Definition quoted (s : string) : Py.str := [34%N] ++ Py.lit s ++ [34%N].

Definition example_manifest : Py.str :=
  Py.lit "{" ++ quoted "id" ++ Py.lit ":" ++ quoted "examplemod" ++ Py.lit ","
  ++ quoted "name" ++ Py.lit ":" ++ quoted "Example Mod" ++ Py.lit ","
  ++ quoted "environment" ++ Py.lit ":" ++ quoted "client" ++ Py.lit ","
  ++ quoted "icon" ++ Py.lit ":" ++ quoted "icon.png" ++ Py.lit "}".

Definition example_object : gmap string Py.str :=
  list_to_map [("id", Py.lit "examplemod"); ("name", Py.lit "Example Mod");
               ("environment", Py.lit "client"); ("icon", Py.lit "icon.png")].

Definition manifest_builtins : Builtins :=
  {| lower := ascii_lower;
     ratio := equal_ratio;
     ratio_range := equal_ratio_range;
     json_loads := λ text,
       if bool_decide (text = example_manifest) then JsonObject example_object
       else JsonError;
     decode_utf8_ignore := λ data, Py.utf8_decode (Byte.to_N <$> data);
     encode_error := surrogates_not_allowed |}.

Definition ascii_bytes (text : Py.str) : list Byte.byte :=
  omap Byte.of_N text.

(** An archive with an icon, the Fabric manifest above, and a Forge
    manifest after it. *)
Definition fabric_jar : jar_path :=
  {| jar_name := Py.lit "examplemod-1.0.jar"; jar_stem := Py.lit "examplemod-1.0";
     jar_zip := Archive
       [ {| filename := Py.lit "icon.png";
            contents := Return (bytes_of "PNG") |};
         {| filename := Py.lit "fabric.mod.json";
            contents := Return (ascii_bytes example_manifest) |};
         {| filename := Py.lit "META-INF/mods.toml";
            contents := Return (bytes_of "clientOnly=false") |} ] |}.

(** Two records of the same category, told apart by their names. *)
Definition named_info (name : string) : mod_info :=
  {| mi_name := Py.lit name; mi_category := ClientOnly;
     mi_links := mi_links sodium_info; mi_error := None;
     mi_icon_data := None |}.

Definition no_folders : config :=
  {| gen_folder := false; gen_log := true; max_threads := 5 |}.

(** The tasks that end along a schedule, by their index. *)
Definition finish_indices (sched : list event) : list nat :=
  omap (λ ev, match ev with
              | Finish i => Some i
              | Acquire _ => None
              end) sched.

(** An archive whose file name has a byte that is no UTF-8 (E9, an e with
    acute accent in Latin-1): [os] hands it to Python as the surrogate
    U+DCE9. *)
Definition latin1_jar : jar_path :=
  {| jar_name := Py.lit "caf" ++ [56553%N] ++ Py.lit ".jar";
     jar_stem := Py.lit "caf" ++ [56553%N];
     jar_zip := Archive [ {| filename := Py.lit "META-INF/mods.toml";
                             contents := Return (bytes_of "modLoader=javafml") |} ] |}.


(** A world in which every copy raises. *)
Definition read_only_world : world :=
  {| w_session := offline; w_fault := λ _, None;
     w_copy2 := λ _, Some (Py.lit "[Errno 13] Permission denied");
     w_mkdir := None; w_out_dir_exists := false |}.

(** * Properties *)

(** ** Strings *)

Lemma startswith_spec (p s : Py.str) :
  Py.startswith p s = true ↔ ∃ r, s = p ++ r.
Proof.
  revert s. induction p as [|a p IH]; intros s; simpl.
  - split; [eauto | done].
  - destruct s as [|b s].
    + split; [done | intros [r Hr]; discriminate].
    + rewrite andb_true_iff, N.eqb_eq, IH. split.
      * intros [-> [r ->]]. eauto.
      * intros [r Hr]. injection Hr as -> ->. eauto.
Qed.

Lemma contains_spec (p s : Py.str) :
  Py.contains p s = true ↔ ∃ a b, s = a ++ p ++ b.
Proof.
  induction s as [|c s IH]; simpl; rewrite orb_true_iff, startswith_spec.
  - split.
    + intros [[r Hr]|?]; [|done]. exists [], r. done.
    + intros (a & b & Hab). left.
      destruct a; [eauto | discriminate].
  - rewrite IH. split.
    + intros [[r Hr]|(a & b & ->)].
      * exists [], r. done.
      * exists (c :: a), b. done.
    + intros (a & b & Hab). destruct a as [|c' a]; simpl in Hab.
      * left. eauto.
      * right. injection Hab as -> ->. eauto.
Qed.

Example splitlines_crlf :
  Py.splitlines (Py.lit "a" ++ [13; 10]%N ++ Py.lit "b" ++ [10]%N)
  = [Py.lit "a"; Py.lit "b"].
Proof. reflexivity. Qed.

Example lit_cjk : Py.lit "服务端" = [26381; 21153; 31471]%N.
Proof. reflexivity. Qed.

(** ** Side classifier *)

Section Classifier.
Context `{Builtins}.

Lemma forge_line_true (line : Py.str) (acc : bool) :
  forge_line acc line = true ↔ acc = true ∨ declares_client_only line.
Proof.
  unfold forge_line, declares_client_only.
  destruct (Py.contains (Py.lit "clientOnly") line),
           (Py.contains (Py.lit "true") (lower line)), acc; simpl;
    intuition discriminate.
Qed.

Lemma forge_scan_true (lines : list Py.str) (acc : bool) :
  fold_left forge_line lines acc = true
  ↔ acc = true ∨ ∃ line, line ∈ lines ∧ declares_client_only line.
Proof.
  revert acc. induction lines as [|l lines IH]; intros acc; simpl.
  - split; [auto | intros [?|(? & Hin & _)]; [done | by apply elem_of_nil in Hin]].
  - rewrite IH, forge_line_true. split.
    + intros [[?|?]|(line & ? & ?)]; [auto | right; exists l | right; exists line];
        (split; [|done]); [apply list_elem_of_here | by apply list_elem_of_further].
    + intros [?|(line & Hin & ?)]; [auto|].
      apply elem_of_cons in Hin as [->|?]; [auto | right; eauto].
Qed.

Lemma parse_forge_client_only (text stem : Py.str) :
  ∃ m, parse_forge text stem = Some m
       ∧ m_loader m = Some (Py.lit "forge")
       ∧ m_name m = stem
       ∧ (m_client_only m = true
          ↔ ∃ line, line ∈ Py.splitlines text ∧ declares_client_only line).
Proof.
  eexists. split; [reflexivity|]. simpl. split; [done|]. split; [done|].
  rewrite forge_scan_true. intuition discriminate.
Qed.

Lemma classify_forge (meta : metadata) :
  m_loader meta = Some (Py.lit "forge") →
  classify (Some meta) = if m_client_only meta then ClientOnly else ServerSide.
Proof.
  intros Hl. unfold classify. rewrite Hl.
  rewrite bool_decide_eq_false_2 by (vm_compute; discriminate).
  rewrite bool_decide_eq_true_2 by done. done.
Qed.

(** C7.  For a record with loader forge, [classify] returns the client-only
    category exactly when the flag is set, and the server category
    otherwise; for the record that [parse_forge] builds from a manifest
    text, the flag is set exactly when some line of the text contains
    "clientOnly" and, once lower-cased, "true".  When there is no such line
    the category is the server one. *)
Theorem forge_client_only_iff (text stem : Py.str) (meta : metadata) :
  (m_loader meta = Some (Py.lit "forge") →
     (classify (Some meta) = ClientOnly ↔ m_client_only meta = true)
     ∧ (classify (Some meta) ≠ ClientOnly → classify (Some meta) = ServerSide))
  ∧ (classify (parse_forge text stem) = ClientOnly
     ↔ ∃ line, line ∈ Py.splitlines text ∧ declares_client_only line)
  ∧ ((¬ ∃ line, line ∈ Py.splitlines text ∧ declares_client_only line) →
     classify (parse_forge text stem) = ServerSide).
Proof.
  assert (Hgen : ∀ m, m_loader m = Some (Py.lit "forge") →
            (classify (Some m) = ClientOnly ↔ m_client_only m = true)
            ∧ (classify (Some m) ≠ ClientOnly → classify (Some m) = ServerSide)).
  { intros m Hm. rewrite (classify_forge m Hm).
    destruct (m_client_only m); split; try done; split; done. }
  split; [apply Hgen|].
  destruct (parse_forge_client_only text stem) as (m & -> & Hl & _ & Hflag).
  destruct (Hgen m Hl) as [Hiff Hother]. split.
  - rewrite Hiff. exact Hflag.
  - intros Hno. apply Hother. rewrite Hiff, Hflag. exact Hno.
Qed.

(** C2 (amended).  Without metadata, and for a record whose loader is
    absent, [classify] returns the parse-failed category; for a record
    whose loader is present but is neither "fabric" nor "forge", it returns
    the server category. *)
Theorem classify_by_loader (meta : metadata) :
  classify None = ParseFailed
  ∧ (m_loader meta = None → classify (Some meta) = ParseFailed)
  ∧ (∀ l, m_loader meta = Some l → l ≠ Py.lit "fabric" → l ≠ Py.lit "forge" →
       classify (Some meta) = ServerSide).
Proof.
  split; [done|]. split.
  - intros Hl. unfold classify. rewrite Hl. done.
  - intros l Hl Hfab Hforge. unfold classify. rewrite Hl.
    rewrite !bool_decide_eq_false_2; [done|discriminate|congruence|congruence].
Qed.

End Classifier.

(** C2, witness: the record without loader that [read_metadata] builds, and
    a record whose loader is "quilt". *)
Lemma classify_by_loader_witness :
  classify (Some (no_loader (Py.lit "mod"))) = ParseFailed
  ∧ classify (Some quilt_meta) = ServerSide.
Proof.
  split.
  - apply (classify_by_loader (no_loader (Py.lit "mod"))). reflexivity.
  - apply (classify_by_loader quilt_meta) with (l := Py.lit "quilt");
      [reflexivity | vm_compute; discriminate | vm_compute; discriminate].
Defined.

(** C2, counterexample: a loader that is neither fabric nor forge is
    classified as server-capable, not as parse-failed. *)
Lemma classify_quilt_is_server :
  m_loader quilt_meta = Some (Py.lit "quilt")
  ∧ Py.lit "quilt" ≠ Py.lit "fabric" ∧ Py.lit "quilt" ≠ Py.lit "forge"
  ∧ classify (Some quilt_meta) = ServerSide
  ∧ classify (Some quilt_meta) ≠ ParseFailed.
Proof. vm_compute. repeat split; discriminate. Qed.

(** C7, witness: a manifest with the line [clientOnly = TRUE]. *)
Lemma forge_client_only_iff_witness :
  classify (@parse_forge ascii_builtins (Py.lit "modLoader=javafml
clientOnly = TRUE") (Py.lit "mod")) = ClientOnly.
Proof.
  destruct (@forge_client_only_iff ascii_builtins (Py.lit "modLoader=javafml
clientOnly = TRUE") (Py.lit "mod") (no_loader (Py.lit "mod"))) as (_ & Hiff & _).
  apply Hiff. exists (Py.lit "clientOnly = TRUE"). split.
  - vm_compute. apply list_elem_of_further, list_elem_of_here.
  - split; reflexivity.
Defined.

(** ** Link builders *)

Lemma percent_encode_length (c : N) :
  (if unreserved c then 1 else 3) ≤ length (percent_encode c).
Proof.
  unfold percent_encode. destruct (unreserved c); simpl; [lia|].
  unfold Py.utf8_encode1.
  repeat (destruct (_ <? _)%N); simpl; lia.
Qed.

Lemma url_encoded_unreserved (name : Py.str) :
  forallb unreserved name = true → url_encoded name = name.
Proof.
  unfold url_encoded. induction name as [|c name IH]; [done|].
  simpl forallb. rewrite andb_true_iff, bind_cons. intros [Hc Hname].
  unfold percent_encode at 1. rewrite Hc. simpl. by rewrite IH.
Qed.

Lemma url_encoded_length (name : Py.str) :
  length name ≤ length (url_encoded name)
  ∧ (forallb unreserved name = false →
     length name < length (url_encoded name)).
Proof.
  unfold url_encoded. induction name as [|c name [IH1 IH2]].
  - split; [done | discriminate].
  - rewrite bind_cons, length_app. simpl length. simpl forallb.
    pose proof (percent_encode_length c) as Hc.
    destruct (unreserved c); simpl; split; try lia.
    intros Hname. specialize (IH2 Hname). lia.
Qed.

(** C3 (amended).  Each link builder returns its fixed template followed
    by the display name as it is, so equal names give equal links; the
    name is not URL-encoded, and the link is the template instantiated
    with the URL-encoded name exactly when the name consists of unreserved
    characters only. *)
Theorem link_builders_verbatim (name : Py.str) :
  curseforge_link name
    = Py.lit "https://www.curseforge.com/minecraft/mc-mods/" ++ name
  ∧ mcmod_link name = Py.lit "https://search.mcmod.cn/s?key=" ++ name
  ∧ (∀ name', name' = name →
       curseforge_link name' = curseforge_link name
       ∧ mcmod_link name' = mcmod_link name)
  ∧ (forallb unreserved name = true ↔
       curseforge_link name = spec_curseforge_link name)
  ∧ (forallb unreserved name = true ↔
       mcmod_link name = spec_mcmod_link name).
Proof.
  assert (Hiff : ∀ pre : Py.str,
            forallb unreserved name = true ↔ pre ++ name = pre ++ url_encoded name).
  { intros pre. split.
    - intros Hu. by rewrite url_encoded_unreserved.
    - intros Heq. apply app_inv_head in Heq.
      destruct (forallb unreserved name) eqn:Hu; [done|].
      destruct (url_encoded_length name) as [_ Hlt].
      specialize (Hlt Hu). rewrite <- Heq in Hlt. lia. }
  split; [done|]. split; [done|]. split; [by intros ? ->|].
  split; apply Hiff.
Qed.

(** C3, witness: a name made of unreserved characters. *)
Lemma link_builders_verbatim_witness :
  curseforge_link (Py.lit "sodium") = spec_curseforge_link (Py.lit "sodium").
Proof.
  destruct (link_builders_verbatim (Py.lit "sodium")) as (_ & _ & _ & Hcf & _).
  apply Hcf. reflexivity.
Defined.

(** C3, counterexample: the space of a display name is kept as it is, where
    URL-encoding writes %20. *)
Lemma link_builders_do_not_encode :
  curseforge_link (Py.lit "Example Mod")
    = Py.lit "https://www.curseforge.com/minecraft/mc-mods/Example Mod"
  ∧ spec_curseforge_link (Py.lit "Example Mod")
    = Py.lit "https://www.curseforge.com/minecraft/mc-mods/Example%20Mod"
  ∧ curseforge_link (Py.lit "Example Mod")
    ≠ spec_curseforge_link (Py.lit "Example Mod")
  ∧ mcmod_link (Py.lit "Example Mod")
    = Py.lit "https://search.mcmod.cn/s?key=Example Mod"
  ∧ mcmod_link (Py.lit "Example Mod") ≠ spec_mcmod_link (Py.lit "Example Mod").
Proof. vm_compute. repeat split; discriminate. Qed.

(** ** Archive metadata reader *)

Section Reader.
Context `{Builtins}.

Lemma scan_entries_skip (stem : Py.str) (pre rest : list zip_entry) :
  Forall not_a_manifest pre →
  scan_entries stem (pre ++ rest) = scan_entries stem rest.
Proof.
  induction 1 as [|e pre [Hfab Htoml] _ IH]; simpl; [done|].
  by rewrite Hfab, Htoml.
Qed.

(** C9 (amended).  [parse_forge] returns a record with loader forge for
    every text, so the conditional that would give the "mods.toml"
    diagnostic always gives [None].  For an archive whose first manifest
    entry is a mods.toml entry: if the bytes of the entry can be read, the
    archive gets that record and no diagnostic, and is not classified as
    parse-failed, whatever the bytes; if reading the entry raises, the
    handler of [read_metadata] returns a record without loader together
    with the message of the exception, and the archive is classified as
    parse-failed. *)
Theorem forge_manifest_never_unparseable
    (text stem msg : Py.str) (jar : jar_path) (pre post : list zip_entry)
    (info : zip_entry) :
  (∃ m, parse_forge text stem = Some m ∧ m_loader m = Some (Py.lit "forge"))
  ∧ diagnostic_unless (parse_forge text stem) msg = None
  ∧ (jar_zip jar = Archive (pre ++ info :: post) →
     Forall not_a_manifest pre →
     Py.endswith (Py.lit "fabric.mod.json") (filename info) = false →
     Py.endswith (Py.lit "mods.toml") (filename info) = true →
     (∀ data, contents info = Return data →
        read_metadata jar = (parse_forge (safe_decode data) (jar_stem jar), None)
        ∧ classify (fst (read_metadata jar)) ≠ ParseFailed)
     ∧ (∀ e, contents info = Raise e →
          read_metadata jar = (Some (no_loader (jar_stem jar)), Some e)
          ∧ classify (fst (read_metadata jar)) = ParseFailed)).
Proof.
  split; [eexists; split; reflexivity|]. split; [reflexivity|].
  intros Hzip Hpre Hfab Htoml.
  assert (Hscan : read_metadata jar
                  = match contents info with
                    | Raise e => (Some (no_loader (jar_stem jar)), Some e)
                    | Return data =>
                      (parse_forge (safe_decode data) (jar_stem jar), None)
                    end).
  { unfold read_metadata. rewrite Hzip, (scan_entries_skip _ _ _ Hpre). simpl.
    rewrite Hfab, Htoml. by destruct (contents info). }
  split.
  - intros data Hdata. rewrite Hscan, Hdata. split; [done|]. cbn [fst].
    destruct (parse_forge_client_only (safe_decode data) (jar_stem jar))
      as (m & Hm & Hl & _).
    rewrite Hm, (classify_forge m Hl). by destruct (m_client_only m).
  - intros e He. rewrite Hscan, He. split; reflexivity.
Qed.

End Reader.

(** C9, witness: an archive with a readable mods.toml entry, and one whose
    mods.toml entry cannot be read. *)
Lemma forge_manifest_never_unparseable_witness :
  classify (fst (@read_metadata ascii_builtins (forge_jar "mod" "clientOnly=true")))
  ≠ ParseFailed
  ∧ classify (fst (@read_metadata ascii_builtins damaged_forge_jar)) = ParseFailed.
Proof.
  split.
  - destruct (@forge_manifest_never_unparseable ascii_builtins [] [] []
                (forge_jar "mod" "clientOnly=true") [] []
                {| filename := Py.lit "META-INF/mods.toml";
                   contents := Return (bytes_of "clientOnly=true") |})
      as (_ & _ & Hjar).
    destruct Hjar as [Hread _];
      [reflexivity | constructor | reflexivity | reflexivity |].
    by apply (Hread (bytes_of "clientOnly=true")).
  - destruct (@forge_manifest_never_unparseable ascii_builtins [] [] []
                damaged_forge_jar [] []
                {| filename := Py.lit "META-INF/mods.toml";
                   contents := Raise (Py.lit "Bad CRC-32 for file 'META-INF/mods.toml'") |})
      as (_ & _ & Hjar).
    destruct Hjar as [_ Hraise];
      [reflexivity | constructor | reflexivity | reflexivity |].
    by apply (Hraise (Py.lit "Bad CRC-32 for file 'META-INF/mods.toml'")).
Defined.

(** C9, counterexample: the first manifest entry is a mods.toml entry, but
    reading it raises; the handler of [read_metadata] answers with a record
    without loader, and the archive is classified as parse-failed. *)
Lemma damaged_forge_manifest_unparseable :
  jar_zip damaged_forge_jar
    = Archive [ {| filename := Py.lit "META-INF/mods.toml";
                   contents := Raise (Py.lit "Bad CRC-32 for file 'META-INF/mods.toml'") |} ]
  ∧ Py.endswith (Py.lit "mods.toml") (Py.lit "META-INF/mods.toml") = true
  ∧ @read_metadata ascii_builtins damaged_forge_jar
    = (Some (no_loader (Py.lit "damaged")),
       Some (Py.lit "Bad CRC-32 for file 'META-INF/mods.toml'"))
  ∧ classify (fst (@read_metadata ascii_builtins damaged_forge_jar)) = ParseFailed.
Proof. repeat split. Qed.

(** ** Catalog matcher *)

Section Matcher.
Context `{Builtins}.

Lemma Qltb_lt (a b : Q) : Qltb a b = true ↔ (a < b)%Q.
Proof.
  unfold Qltb. rewrite negb_true_iff, <- not_true_iff_false, Qle_bool_iff.
  split; [apply Qnot_le_lt | apply Qlt_not_le].
Qed.

Lemma Qltb_ge (a b : Q) : Qltb a b = false ↔ (b <= a)%Q.
Proof.
  unfold Qltb. by rewrite negb_false_iff, Qle_bool_iff.
Qed.

Lemma similarity_range (a b : Py.str) : (0 <= similarity a b <= 1)%Q.
Proof. apply ratio_range. Qed.

Lemma hit_score_match (meta : metadata) (h : hit) :
  slug_matches meta h = true → (100 <= hit_score meta h <= 150)%Q.
Proof.
  unfold slug_matches, hit_score. intros ->.
  pose proof (similarity_range (m_name meta) (default [] (title_text h))).
  lra.
Qed.

Lemma hit_score_no_match (meta : metadata) (h : hit) :
  slug_matches meta h = false → (0 <= hit_score meta h <= 50)%Q.
Proof.
  unfold slug_matches, hit_score. intros ->.
  pose proof (similarity_range (m_name meta) (default [] (title_text h))).
  lra.
Qed.

(** What the loop leaves in [best, best_score], from any starting pair:
    either no hit beat the starting score, or the result is a hit that beat
    the starting score, is strictly better than every hit before it and at
    least as good as every hit after it. *)
Lemma scan_from (meta : metadata) (hits : list hit) (b0 : option hit) (s0 : Q) :
  (fold_left (pick meta) hits (b0, s0) = (b0, s0)
   ∧ Forall (λ h, (hit_score meta h <= s0)%Q) hits)
  ∨ ∃ pre h post,
      hits = pre ++ h :: post
      ∧ fold_left (pick meta) hits (b0, s0) = (Some h, hit_score meta h)
      ∧ (s0 < hit_score meta h)%Q
      ∧ Forall (λ x, (hit_score meta x < hit_score meta h)%Q) pre
      ∧ Forall (λ x, (hit_score meta x <= hit_score meta h)%Q) post.
Proof.
  revert b0 s0. induction hits as [|x hits IH]; intros b0 s0; simpl.
  - left. split; [done | constructor].
  - assert (Hpick : pick meta (b0, s0) x
                    = if Qltb s0 (hit_score meta x)
                      then (Some x, hit_score meta x) else (b0, s0))
      by reflexivity.
    rewrite Hpick. clear Hpick.
    destruct (Qltb s0 (hit_score meta x)) eqn:Hlt.
    + apply Qltb_lt in Hlt. right.
      destruct (IH (Some x) (hit_score meta x))
        as [[Hfold Hall]|(pre & h & post & -> & Hfold & Hbeat & Hpre & Hpost)].
      * exists [], x, hits. split_and!; [done | done | done | constructor | done].
      * exists (x :: pre), h, post.
        split_and!; [done | done | lra | by constructor | done].
    + apply Qltb_ge in Hlt.
      destruct (IH b0 s0)
        as [[Hfold Hall]|(pre & h & post & -> & Hfold & Hbeat & Hpre & Hpost)].
      * left. split; [done|]. by constructor.
      * right. exists (x :: pre), h, post.
        split_and!; [done | done | done | constructor; [lra | done] | done].
Qed.

(** The two ways the loop over the whole response can end. *)
Lemma best_hit_inv (meta : metadata) (hits : list hit) :
  (∀ best score, best_hit meta hits = (Some best, score) →
     ∃ pre post,
       hits = pre ++ best :: post
       ∧ score = hit_score meta best
       ∧ (0 < score)%Q
       ∧ Forall (λ x, (hit_score meta x < score)%Q) pre
       ∧ Forall (λ x, (hit_score meta x <= score)%Q) post)
  ∧ (∀ score, best_hit meta hits = (None, score) →
       score = 0%Q ∧ Forall (λ x, (hit_score meta x <= 0)%Q) hits).
Proof.
  unfold best_hit. split.
  - intros best score Hbest.
    destruct (scan_from meta hits None 0%Q)
      as [[Hfold _]|(pre & h & post & Hhits & Hfold & Hbeat & Hpre & Hpost)];
      rewrite Hfold in Hbest; [discriminate|].
    injection Hbest as -> <-. exists pre, post. done.
  - intros score Hbest.
    destruct (scan_from meta hits None 0%Q)
      as [[Hfold Hall]|(pre & h & post & Hhits & Hfold & _)];
      rewrite Hfold in Hbest; [|discriminate].
    injection Hbest as <-. done.
Qed.

(** The loop of [modrinth_link] runs to its end exactly when every title
    is a string or is missing, and then leaves what the updates leave. *)
Lemma scoring_loop_returns (meta : metadata) (hits : list hit) (st : option hit * Q) :
  Forall (λ x, title x ≠ Some JOther) hits →
  scoring_loop meta hits st = Some (fold_left (pick meta) hits st).
Proof.
  intros Hall. revert st. induction Hall as [|h hits Hh _ IH]; intros st; [done|].
  cbn [scoring_loop fold_left]. unfold loop_body, title_text.
  destruct (title h) as [[t|]|]; [apply IH | done | apply IH].
Qed.

Lemma scoring_loop_raises (meta : metadata) (hits : list hit) (st : option hit * Q) :
  Exists (λ x, title x = Some JOther) hits → scoring_loop meta hits st = None.
Proof.
  intros Hex. revert st. induction Hex as [h hits Hh|h hits _ IH]; intros st;
    cbn [scoring_loop]; unfold loop_body, title_text.
  - by rewrite Hh.
  - destruct (title h) as [[t|]|]; [apply IH | done | apply IH].
Qed.

Lemma scoring_loop_inv (meta : metadata) (hits : list hit) (st r : option hit * Q) :
  scoring_loop meta hits st = Some r →
  r = fold_left (pick meta) hits st ∧ Forall (λ x, title x ≠ Some JOther) hits.
Proof.
  revert st. induction hits as [|h hits IH]; intros st; cbn [scoring_loop fold_left].
  - intros [= <-]. split; [done | constructor].
  - unfold loop_body, title_text.
    destruct (title h) as [[t|]|] eqn:Ht; [|done|]; intros Hloop;
      destruct (IH _ Hloop) as [-> Hall]; (split; [done|]);
      constructor; try done; by rewrite Ht.
Qed.


Lemma best_score_max (meta : metadata) (hits : list hit) (h : hit) :
  h ∈ hits → (hit_score meta h <= snd (best_hit meta hits))%Q.
Proof.
  intros Hin. unfold best_hit.
  destruct (scan_from meta hits None 0%Q)
    as [[Hfold Hall]|(pre & b & post & Hhits & Hfold & Hbeat & Hpre & Hpost)];
    rewrite Hfold; simpl.
  - rewrite Forall_forall in Hall. by apply Hall.
  - subst hits. rewrite elem_of_app, elem_of_cons in Hin.
    rewrite Forall_forall in Hpre. rewrite Forall_forall in Hpost.
    destruct Hin as [Hin|[->|Hin]].
    + apply Qlt_le_weak. by apply Hpre.
    + apply Qle_refl.
    + by apply Hpost.
Qed.

(** [modrinth_link] once the query is the identifier and the catalog has
    answered with status 200 and a list of hits. *)
Lemma modrinth_link_answered (meta : metadata) (s : session) (ident : Py.str)
    (hits : list hit) :
  m_id meta = Some ident →
  Py.truthy ident = true →
  s ident = Reply 200 (Some hits) →
  modrinth_link meta s
  = match scoring_loop meta hits (None, 0%Q) with
    | None => None
    | Some r =>
      if Qle_bool 60 (snd r) then
        match fst r with
        | Some h =>
          match slug h with
          | Some sl => Some (Py.lit "https://modrinth.com/mod/" ++ sl)
          | None => None
          end
        | None => None
        end
      else None
    end.
Proof.
  intros Hid Htruthy Hreply. unfold modrinth_link, search_query.
  rewrite Hid. cbn [Py.truthy_opt default from_option id]. rewrite Htruthy.
  cbn [negb].
  rewrite Hreply. cbn [Z.eqb Pos.eqb negb]. rewrite Htruthy. cbn [negb].
  by destruct (scoring_loop meta hits (None, 0%Q)) as [[best score]|].
Qed.

(** C6 (amended).  The record has an identifier (a non-empty [id]) and the
    catalog answers the query for it with status 200 and a list of hits,
    one of which has that identifier as its slug.  If the title of every
    hit is a string or is missing, that hit scores at least 100 whatever
    its title, the loop runs to its end with a best score of at least 100,
    and the link of the identifier is returned.  If the title of some hit
    is bound to a value that is no string, the loop raises, and no link is
    returned. *)
Theorem exact_slug_accepted (meta : metadata) (s : session) (ident : Py.str)
    (hits : list hit) (h : hit) :
  m_id meta = Some ident →
  Py.truthy ident = true →
  s ident = Reply 200 (Some hits) →
  h ∈ hits →
  slug h = Some ident →
  (Forall (λ x, title x ≠ Some JOther) hits →
   (100 <= hit_score meta h)%Q
   ∧ scoring_loop meta hits (None, 0%Q) = Some (best_hit meta hits)
   ∧ (100 <= snd (best_hit meta hits))%Q
   ∧ modrinth_link meta s = Some (Py.lit "https://modrinth.com/mod/" ++ ident))
  ∧ (Exists (λ x, title x = Some JOther) hits →
     scoring_loop meta hits (None, 0%Q) = None
     ∧ modrinth_link meta s = None).
Proof.
  intros Hid Htruthy Hreply Hin Hslug.
  rewrite (modrinth_link_answered meta s ident hits Hid Htruthy Hreply).
  split.
  - intros Htitles.
    assert (Hmatch : slug_matches meta h = true).
    { unfold slug_matches. rewrite Hid, Hslug. simpl. rewrite Htruthy.
      by rewrite bool_decide_eq_true_2. }
    pose proof (hit_score_match meta h Hmatch) as [Hh _].
    pose proof (best_score_max meta hits h Hin) as Hmax.
    pose proof (scoring_loop_returns meta hits (None, 0%Q) Htitles) as Hloop.
    fold (best_hit meta hits) in Hloop.
    split; [done|]. split; [exact Hloop|]. split; [lra|].
    rewrite Hloop.
    destruct (best_hit meta hits) as [best score] eqn:Hbest.
    cbn [fst snd] in *.
    assert (Hacc : Qle_bool 60 score = true) by (apply Qle_bool_iff; lra).
    rewrite Hacc.
    destruct best as [b|].
    + destruct (proj1 (best_hit_inv meta hits) b score Hbest)
        as (pre & post & _ & Hscore & _).
      destruct (slug_matches meta b) eqn:Hb.
      * unfold slug_matches in Hb. apply andb_true_iff in Hb as [_ Hb].
        apply bool_decide_eq_true_1 in Hb. by rewrite Hb, Hid.
      * pose proof (hit_score_no_match meta b Hb) as [_ Hle].
        rewrite <- Hscore in Hle. lra.
    + destruct (proj2 (best_hit_inv meta hits) score Hbest) as [-> _].
      lra.
  - intros Hbad.
    by rewrite (scoring_loop_raises meta hits (None, 0%Q) Hbad).
Qed.

(** A link is only ever returned for the identifier of the record: the
    title alone scores at most 50, below the threshold. *)
Lemma link_needs_identifier (meta : metadata) (s : session) (url : Py.str) :
  modrinth_link meta s = Some url →
  ∃ ident, m_id meta = Some ident ∧ Py.truthy ident = true
           ∧ url = Py.lit "https://modrinth.com/mod/" ++ ident.
Proof.
  unfold modrinth_link.
  destruct (negb (Py.truthy (search_query meta))); [done|].
  destruct (s (search_query meta)) as [|status [hits|]]; try done;
    destruct (negb (status =? 200)%Z); try done.
  destruct (scoring_loop meta hits (None, 0%Q)) as [[best score]|] eqn:Hloop;
    [|done].
  apply scoring_loop_inv in Hloop as [Hbest _]. symmetry in Hbest.
  fold (best_hit meta hits) in Hbest.
  destruct (Qle_bool 60 score) eqn:Hacc; [|done].
  apply Qle_bool_iff in Hacc. destruct best as [b|]; [|done].
  destruct (proj1 (best_hit_inv meta hits) b score Hbest)
    as (_ & _ & _ & Hscore & _).
  destruct (slug_matches meta b) eqn:Hb.
  - unfold slug_matches in Hb. apply andb_true_iff in Hb as [Hid Hb].
    apply bool_decide_eq_true_1 in Hb. rewrite Hb.
    destruct (m_id meta) as [ident|]; [|done].
    intros [= <-]. eauto.
  - pose proof (hit_score_no_match meta b Hb) as [_ Hle].
    rewrite <- Hscore in Hle. lra.
Qed.

End Matcher.

(** C6, witness: the second hit has the slug of the record and an unrelated
    title, the first has the title of the record and another slug, and the
    link is returned; with a third hit whose title is [null] it is not. *)
Lemma exact_slug_accepted_witness :
  @modrinth_link ascii_builtins sodium_meta
    (λ _, Reply 200 (Some [titled "indium" "Sodium";
                           titled "sodium" "Rendering engine"]))
  = Some (Py.lit "https://modrinth.com/mod/" ++ Py.lit "sodium")
  ∧ @modrinth_link ascii_builtins sodium_meta
      (λ _, Reply 200 (Some [titled "indium" "Sodium";
                             titled "sodium" "Rendering engine";
                             untitled "lithium"]))
    = None.
Proof.
  split.
  - destruct (@exact_slug_accepted ascii_builtins sodium_meta
                (λ _, Reply 200 (Some [titled "indium" "Sodium";
                                       titled "sodium" "Rendering engine"]))
                (Py.lit "sodium")
                [titled "indium" "Sodium"; titled "sodium" "Rendering engine"]
                (titled "sodium" "Rendering engine")) as [Hlink _];
      [reflexivity | reflexivity | reflexivity
      | apply list_elem_of_further, list_elem_of_here | reflexivity |].
    destruct Hlink as (_ & _ & _ & Hlink); [|exact Hlink].
    repeat constructor; discriminate.
  - destruct (@exact_slug_accepted ascii_builtins sodium_meta
                (λ _, Reply 200 (Some [titled "indium" "Sodium";
                                       titled "sodium" "Rendering engine";
                                       untitled "lithium"]))
                (Py.lit "sodium")
                [titled "indium" "Sodium"; titled "sodium" "Rendering engine";
                 untitled "lithium"]
                (titled "sodium" "Rendering engine")) as [_ Hnone];
      [reflexivity | reflexivity | reflexivity
      | apply list_elem_of_further, list_elem_of_here | reflexivity |].
    destruct Hnone as [_ Hnone]; [|exact Hnone].
    apply Exists_cons_tl, Exists_cons_tl, Exists_cons_hd. reflexivity.
Defined.

(** C6, counterexample: the record has the identifier sodium, the catalog
    answers with status 200, and the first hit has the slug sodium and
    scores 150; the title of the second hit is [null].  [similarity] raises
    for it, the handler of [modrinth_link] returns [None], and the link of
    the exact match is lost. *)
Lemma null_title_discards_exact_match :
  let hits := [titled "sodium" "Sodium"; untitled "lithium"] in
  m_id sodium_meta = Some (Py.lit "sodium")
  ∧ Py.truthy (Py.lit "sodium") = true
  ∧ titled "sodium" "Sodium" ∈ hits
  ∧ slug (titled "sodium" "Sodium") = m_id sodium_meta
  ∧ (100 <= @hit_score ascii_builtins sodium_meta (titled "sodium" "Sodium"))%Q
  ∧ title (untitled "lithium") = Some JOther
  ∧ @scoring_loop ascii_builtins sodium_meta hits (None, 0%Q) = None
  ∧ @modrinth_link ascii_builtins sodium_meta (λ _, Reply 200 (Some hits)) = None.
Proof.
  intros hits. split_and!; try reflexivity.
  - apply list_elem_of_here.
  - vm_compute. discriminate.
Qed.


(** ** The event loop *)

Lemma holding_acquire (l : list task_state) (i : nat) :
  l !! i = Some Waiting →
  length (filter (λ t, t = Holding) (<[i := Holding]> l))
  = S (length (filter (λ t, t = Holding) l)).
Proof.
  revert i. induction l as [|t l IH]; intros i Hi; [done|].
  destruct i as [|i]; simpl in Hi; cbn [insert list_insert].
  - injection Hi as ->. by rewrite !filter_cons; repeat case_decide.
  - rewrite !filter_cons. case_decide; simpl; by rewrite IH.
Qed.

Lemma holding_release (l : list task_state) (i : nat) (t' : task_state) :
  l !! i = Some Holding → t' ≠ Holding →
  S (length (filter (λ t, t = Holding) (<[i := t']> l)))
  = length (filter (λ t, t = Holding) l).
Proof.
  revert i. induction l as [|t l IH]; intros i Hi Hne; [done|].
  destruct i as [|i]; simpl in Hi; cbn [insert list_insert].
  - injection Hi as ->. by rewrite !filter_cons; repeat case_decide.
  - rewrite !filter_cons. case_decide; simpl; by rewrite <- (IH i).
Qed.

Section Loop.
Context `{Builtins}.
Variables (cfg : config) (w : world) (jars : list jar_path).

(** What [step] does, event by event. *)
Lemma step_acquire_inv (i : nat) (s s' : loop_state) :
  step cfg w jars (Acquire i) s = Some s' →
  tasks s !! i = Some Waiting
  ∧ sem_value s = S (sem_value s')
  ∧ tasks s' = <[i := Holding]> (tasks s)
  ∧ self s' = self s ∧ raised s' = raised s.
Proof.
  simpl. destruct (tasks s !! i) as [[| | |]|] eqn:Hi; try done.
  destruct (sem_value s) eqn:Hsem; [done|].
  intros [= <-]. done.
Qed.

Lemma step_finish_inv (i : nat) (s s' : loop_state) :
  step cfg w jars (Finish i) s = Some s' →
  ∃ jar res,
    tasks s !! i = Some Holding ∧ jars !! i = Some jar
    ∧ process_jar_with_sem cfg w (length jars) jar (self s) = (self s', res)
    ∧ sem_value s' = S (sem_value s)
    ∧ tasks s' = <[i := match res with
                         | Return _ => Done
                         | Raise e => Failed e
                         end]> (tasks s)
    ∧ raised s' = match raised s, res with
                  | Some e, _ => Some e
                  | None, Raise e => Some e
                  | None, Return _ => None
                  end.
Proof.
  simpl. destruct (tasks s !! i) as [[| | |]|] eqn:Hi; try done.
  destruct (jars !! i) as [jar|] eqn:Hjar; [|done].
  destruct (process_jar_with_sem cfg w (length jars) jar (self s)) as [st res] eqn:Hp.
  intros [= <-]. exists jar, res. done.
Qed.

Lemma step_slots (ev : event) (s s' : loop_state) :
  step cfg w jars ev s = Some s' →
  holding s' + sem_value s' = holding s + sem_value s.
Proof.
  unfold holding. destruct ev as [i|i]; intros Hstep.
  - apply step_acquire_inv in Hstep as (Hi & Hsem & -> & _).
    rewrite (holding_acquire _ _ Hi), Hsem. lia.
  - apply step_finish_inv in Hstep as (jar & res & Hi & _ & _ & -> & -> & _).
    rewrite <- (holding_release (tasks s) i
                  (match res with Return _ => Done | Raise e => Failed e end) Hi)
      by (by destruct res).
    lia.
Qed.

Lemma exec_slots (sched : list event) (s s' : loop_state) :
  exec cfg w jars sched s = Some s' →
  holding s' + sem_value s' = holding s + sem_value s.
Proof.
  revert s. induction sched as [|ev sched IH]; intros s; simpl.
  - by intros [= ->].
  - destruct (step cfg w jars ev s) as [s1|] eqn:Hstep; [|done].
    intros Hexec. rewrite (IH _ Hexec). by apply (step_slots ev).
Qed.

Lemma initial_holding : holding (initial cfg jars) = 0.
Proof.
  unfold holding, initial. simpl.
  induction (length jars) as [|n IH]; [done|].
  simpl. by rewrite filter_cons_False by done.
Qed.

(** C5.  In every state that the event loop reaches from the start of a
    run, the number of tasks inside [async with sem] plus the free slots of
    the semaphore is the worker budget; so at most [max_threads] tasks hold
    a slot, however many archives there are. *)
Theorem semaphore_bounds_tasks (sched : list event) (s : loop_state) :
  exec cfg w jars sched (initial cfg jars) = Some s →
  holding s + sem_value s = max_threads cfg
  ∧ holding s ≤ max_threads cfg.
Proof.
  intros Hexec. apply exec_slots in Hexec.
  rewrite initial_holding in Hexec. simpl in Hexec. lia.
Qed.

End Loop.

(** C5, witness: three archives and two slots; after two acquisitions two
    tasks hold a slot, and the third task cannot acquire one. *)
Lemma semaphore_bounds_tasks_witness :
  ∃ s, @exec ascii_builtins two_workers quiet_world three_jars
         [Acquire 0; Acquire 2] (initial two_workers three_jars) = Some s
       ∧ holding s = 2
       ∧ holding s ≤ max_threads two_workers
       ∧ @step ascii_builtins two_workers quiet_world three_jars (Acquire 1) s
         = None.
Proof.
  eexists. split; [reflexivity|]. split; [reflexivity|]. split; [|reflexivity].
  eapply proj2, (@semaphore_bounds_tasks ascii_builtins two_workers quiet_world
                   three_jars [Acquire 0; Acquire 2]).
  reflexivity.
Defined.

(** ** Sorting, and writing the report *)

Lemma leb_total (a b : Py.str) : Py.leb a b = false → Py.leb b a = true.
Proof.
  revert b. induction a as [|x a IH]; intros [|y b]; simpl; try done.
  destruct (N.ltb_spec x y), (N.eqb_spec x y), (N.ltb_spec y x),
           (N.eqb_spec y x); try done; try lia.
  apply IH.
Qed.

Lemma leb_trans (a b c : Py.str) :
  Py.leb a b = true → Py.leb b c = true → Py.leb a c = true.
Proof.
  revert b c. induction a as [|x a IH]; intros [|y b] [|z c]; simpl; try done.
  destruct (N.ltb_spec x y), (N.eqb_spec x y), (N.ltb_spec y z),
           (N.eqb_spec y z), (N.ltb_spec x z), (N.eqb_spec x z);
    try done; try lia.
  apply IH.
Qed.

Section Sorting.
Context {A : Type} (key : A → Py.str).

Lemma insert_by_perm (x : A) (l : list A) : insert_by key x l ≡ₚ x :: l.
Proof.
  induction l as [|y l IH]; simpl; [done|].
  destruct (Py.leb (key x) (key y)); [done|].
  rewrite IH. apply Permutation_swap.
Qed.

Lemma insert_by_HdRel (x y : A) (l : list A) :
  key_le key y x → HdRel (key_le key) y l → HdRel (key_le key) y (insert_by key x l).
Proof.
  intros Hyx Hhd. destruct l as [|z l]; simpl; [by constructor|].
  destruct (Py.leb (key x) (key z)); constructor; [done|].
  by inversion Hhd.
Qed.

Lemma insert_by_Sorted (x : A) (l : list A) :
  Sorted (key_le key) l → Sorted (key_le key) (insert_by key x l).
Proof.
  induction 1 as [|y l Hl IH Hhd]; simpl.
  - by repeat constructor.
  - destruct (Py.leb (key x) (key y)) eqn:Hxy.
    + constructor; [by constructor|]. by constructor.
    + constructor; [exact IH|].
      apply insert_by_HdRel; [|exact Hhd]. by apply leb_total.
Qed.

Lemma sorted_perm (l : list A) : sorted key l ≡ₚ l.
Proof.
  induction l as [|x l IH]; simpl; [done|].
  by rewrite insert_by_perm, IH.
Qed.

Lemma sorted_StronglySorted (l : list A) : StronglySorted (key_le key) (sorted key l).
Proof.
  apply Sorted_StronglySorted.
  - intros a b c. apply leb_trans.
  - induction l as [|x l IH]; simpl; [constructor|].
    by apply insert_by_Sorted.
Qed.

End Sorting.


Lemma encodable_app (a b : Py.str) :
  Py.encodable (a ++ b) = Py.encodable a && Py.encodable b.
Proof. apply forallb_app. Qed.

Lemma encodable_concat (l : list Py.str) :
  Py.encodable (concat l) = true ↔ Forall (λ p, Py.encodable p = true) l.
Proof.
  induction l as [|p l IH]; simpl.
  - split; [constructor | done].
  - rewrite encodable_app, andb_true_iff, IH, Forall_cons. done.
Qed.

Lemma item_pieces_concat (sec : category) (m : mod_info) :
  concat (item_pieces sec m) = item_line sec m.
Proof.
  unfold item_pieces, item_line.
  destruct (Py.truthy_opt (mi_error m)); cbn [app concat];
    by rewrite ?app_nil_r, <- ?(assoc (++)).
Qed.

Lemma items_pieces_concat (sec : category) (l : list mod_info) :
  concat (m ← l; item_pieces sec m) = concat (item_line sec <$> l).
Proof.
  induction l as [|m l IH]; [done|].
  rewrite bind_cons, fmap_cons, concat_app, item_pieces_concat, IH. done.
Qed.

Lemma preamble_pieces_concat : concat preamble_pieces = preamble.
Proof. vm_compute. reflexivity. Qed.

Section Writing.
Context `{Builtins}.

(** The pieces handed to [f.write] make up the text of the report. *)
Lemma report_pieces_concat (mods : list mod_info) :
  concat (report_pieces mods) = report_text mods.
Proof.
  assert (Hsec : ∀ sec, concat (section_pieces mods sec) = section_text mods sec).
  { intros sec. unfold section_pieces, section_text. cbn [concat].
    by rewrite items_pieces_concat, <- ?(assoc (++)). }
  unfold report_pieces, report_text.
  rewrite concat_app, preamble_pieces_concat. f_equal.
  rewrite !bind_cons, !concat_app, !Hsec. cbn [mbind list_bind concat].
  reflexivity.
Qed.

(** The text of the report can be encoded exactly when the line of every
    record can. *)
Lemma report_encodable (mods : list mod_info) :
  Py.encodable (report_text mods) = true ↔ Forall (λ m, writable m = true) mods.
Proof.
  assert (Hsec : ∀ sec,
            Py.encodable (section_text mods sec) = true
            ↔ Forall (λ m, writable m = true) (section_of sec mods)).
  { intros sec. unfold section_text.
    rewrite !encodable_app, !andb_true_iff, encodable_concat, Forall_fmap.
    assert (Hperm : bucket sec mods ≡ₚ section_of sec mods) by apply sorted_perm.
    rewrite Hperm. unfold section_of. rewrite !Forall_forall. split.
    - intros (_ & _ & _ & _ & _ & _ & Hall) m Hm.
      pose proof (Hall m Hm) as Hline. simpl in Hline.
      apply list_elem_of_filter in Hm as [<- _]. exact Hline.
    - intros Hall. split_and!; try (by destruct sec).
      intros m Hm. simpl. pose proof (Hall m Hm) as Hline.
      apply list_elem_of_filter in Hm as [<- _]. exact Hline. }
  unfold report_text. cbn [fmap list_fmap concat].
  rewrite !encodable_app, !andb_true_iff, !Hsec. unfold section_of.
  rewrite !Forall_forall. split.
  - intros (_ & Hs & Hc & Hp & _) m Hm.
    destruct (mi_category m) eqn:Hcat;
      [apply Hs | apply Hc | apply Hp]; by apply list_elem_of_filter.
  - intros Hall. split_and!; try done;
      intros m Hm; apply list_elem_of_filter in Hm as [_ Hm]; by apply Hall.
Qed.

(** [write_report] returns the text when every piece can be encoded, and
    raises at the first piece that cannot. *)
Lemma write_report_cases (mods : list mod_info) :
  (Forall (λ m, writable m = true) mods
   ∧ write_report mods = Return (report_text mods))
  ∨ (¬ Forall (λ m, writable m = true) mods
     ∧ ∃ p, p ∈ report_pieces mods ∧ Py.encodable p = false
            ∧ write_report mods = Raise (encode_error p)).
Proof.
  unfold write_report.
  destruct (list_find (λ p, Py.encodable p = false) (report_pieces mods))
    as [[i p]|] eqn:Hfind.
  - right. apply list_find_Some in Hfind as (Hp & Hbad & _).
    apply list_elem_of_lookup_2 in Hp. split; [|by exists p].
    rewrite <- report_encodable, <- report_pieces_concat, encodable_concat.
    rewrite Forall_forall. intros Hall. specialize (Hall p Hp). congruence.
  - left. apply list_find_None in Hfind.
    rewrite report_pieces_concat. split; [|done].
    rewrite <- report_encodable, <- report_pieces_concat, encodable_concat.
    eapply Forall_impl; [exact Hfind|]. simpl. intros q Hq.
    by destruct (Py.encodable q).
Qed.

Lemma write_report_returns (mods : list mod_info) :
  Forall (λ m, writable m = true) mods →
  write_report mods = Return (report_text mods).
Proof.
  intros Hall. by destruct (write_report_cases mods) as [[_ ?]|[? _]].
Qed.

Lemma write_report_inv (mods : list mod_info) (text : Py.str) :
  write_report mods = Return text →
  text = report_text mods ∧ Forall (λ m, writable m = true) mods.
Proof.
  destruct (write_report_cases mods) as [[Hall ->]|(_ & p & _ & _ & ->)];
    [|done].
  by intros [= <-].
Qed.

End Writing.

(** ** Tasks and [gather] *)

Section Run.
Context `{Builtins}.
Variables (cfg : config) (w : world) (jars : list jar_path).

Lemma try_block_returns (jar : jar_path) (st : thread_state) :
  w_fault w (jar_name jar) = None →
  ∃ st', try_block cfg w jar st = (st', Return ())
         ∧ all_mods st' = all_mods st ++ [make_mod_info (w_session w) jar].
Proof.
  intros Hf. unfold try_block. rewrite Hf.
  destruct (gen_folder cfg); [destruct (w_copy2 w (jar_name jar))|];
    eexists; (split; [reflexivity|]); reflexivity.
Qed.

Lemma try_block_raises (jar : jar_path) (st : thread_state) (f : fault) :
  w_fault w (jar_name jar) = Some f →
  snd (try_block cfg w jar st) = Raise (fault_message f).
Proof. intros Hf. unfold try_block. rewrite Hf. by destruct f. Qed.

Lemma process_jar_returns (jar : jar_path) (st : thread_state) :
  w_fault w (jar_name jar) = None →
  ∃ st', process_jar_with_sem cfg w (length jars) jar st = (st', Return ())
         ∧ all_mods st' = all_mods st ++ [make_mod_info (w_session w) jar].
Proof.
  intros Hf. unfold process_jar_with_sem.
  destruct (try_block_returns jar st Hf) as (st' & -> & Hmods).
  eexists. split; [reflexivity|]. exact Hmods.
Qed.

Lemma process_jar_raises (jar : jar_path) (st : thread_state) (f : fault) :
  w_fault w (jar_name jar) = Some f →
  snd (process_jar_with_sem cfg w (length jars) jar st) = Raise (fault_message f).
Proof.
  intros Hf. unfold process_jar_with_sem.
  pose proof (try_block_raises jar st f Hf) as Hr.
  destruct (try_block cfg w jar st) as [st' res]. exact Hr.
Qed.

(** What one task leaves behind, whether it returns or raises. *)
Lemma process_effects (jar : jar_path) (st : thread_state) :
  let st' := fst (process_jar_with_sem cfg w (length jars) jar st) in
  progress st' = progress st ++ [(length (all_mods st'), length jars)]
  ∧ all_mods st'
    = all_mods st
      ++ (if appends w jar then [make_mod_info (w_session w) jar] else [])
  ∧ (copied st' = copied st
     ∨ (gen_folder cfg = true ∧ w_copy2 w (jar_name jar) = None
        ∧ copied st'
          = copied st
            ++ [(jar_name jar,
                 mi_category (make_mod_info (w_session w) jar))])).
Proof.
  unfold process_jar_with_sem, try_block, appends.
  destruct (w_fault w (jar_name jar)) as [[e|e]|];
    [| |destruct (gen_folder cfg) eqn:Hgen;
        [destruct (w_copy2 w (jar_name jar)) eqn:Hcopy|]];
    cbn; rewrite ?app_nil_r; split_and!; auto.
Qed.

(** The records along a run, from any state. *)
Lemma exec_records (sched : list event) (s s' : loop_state) :
  exec cfg w jars sched s = Some s' →
  all_mods (self s')
  = all_mods (self s)
    ++ (make_mod_info (w_session w)
          <$> filter (λ jar, appends w jar = true) (finished_jars jars sched)).
Proof.
  revert s. induction sched as [|ev sched IH]; intros s; simpl.
  - intros [= <-]. by rewrite app_nil_r.
  - destruct (step cfg w jars ev s) as [s1|] eqn:Hstep; [|done].
    intros Hexec. rewrite (IH s1 Hexec). unfold finished_jars.
    destruct ev as [i|i]; cbn [omap list_omap].
    + apply step_acquire_inv in Hstep as (_ & _ & _ & -> & _). done.
    + apply step_finish_inv in Hstep as (jar & res & _ & Hjar & Hp & _).
      destruct (process_effects jar (self s)) as (_ & Hmods & _).
      rewrite Hp in Hmods. cbn [fst] in Hmods. rewrite Hmods, Hjar.
      rewrite filter_cons. rewrite <- (assoc (++)). f_equal.
      destruct (appends w jar); by case_decide.
Qed.

(** The outcome of a task depends on the faults only. *)
Lemma process_result (jar : jar_path) (st : thread_state) :
  snd (process_jar_with_sem cfg w (length jars) jar st)
  = match w_fault w (jar_name jar) with
    | Some f => Raise (fault_message f)
    | None => Return ()
    end.
Proof.
  destruct (w_fault w (jar_name jar)) as [f|] eqn:Hf.
  - by apply process_jar_raises.
  - destruct (process_jar_returns jar st Hf) as (st' & -> & _). done.
Qed.

(** The exception that [gather] holds is the fault of a task that ended. *)
Lemma exec_raised_origin (sched : list event) (s s' : loop_state) (e : Py.str) :
  exec cfg w jars sched s = Some s' → raised s' = Some e →
  raised s = Some e
  ∨ ∃ i jar f, Finish i ∈ sched ∧ jars !! i = Some jar
               ∧ w_fault w (jar_name jar) = Some f ∧ e = fault_message f.
Proof.
  revert s. induction sched as [|ev sched IH]; intros s; simpl.
  - intros [= <-]. by left.
  - destruct (step cfg w jars ev s) as [s1|] eqn:Hstep; [|done].
    intros Hexec He.
    destruct (IH s1 Hexec He) as [H1|(i & jar & f & Hin & Hjar & Hf & ->)].
    + destruct ev as [i|i].
      * apply step_acquire_inv in Hstep as (_ & _ & _ & _ & Hr).
        left. congruence.
      * apply step_finish_inv in Hstep
          as (jar & res & _ & Hjar & Hproc & _ & _ & Hr).
        rewrite Hr in H1. destruct (raised s) as [e0|]; [by left|].
        right. pose proof (process_result jar (self s)) as Hres.
        rewrite Hproc in Hres. cbn [snd] in Hres.
        destruct (w_fault w (jar_name jar)) as [f|] eqn:Hf; subst res; [|done].
        injection H1 as <-. exists i, jar, f.
        split_and!; try done. apply list_elem_of_here.
    + right. exists i, jar, f. split_and!; try done.
      by apply list_elem_of_further.
Qed.

(** The first exception stays the one that [gather] re-raises. *)
Lemma exec_raised_sticky (sched : list event) (s s' : loop_state) (e : Py.str) :
  raised s = Some e → exec cfg w jars sched s = Some s' → raised s' = Some e.
Proof.
  revert s. induction sched as [|ev sched IH]; intros s Hr; simpl.
  - by intros [= <-].
  - destruct (step cfg w jars ev s) as [s1|] eqn:Hstep; [|done].
    apply IH. destruct ev as [i|i].
    + apply step_acquire_inv in Hstep as (_ & _ & _ & _ & ->). done.
    + apply step_finish_inv in Hstep as (? & ? & _ & _ & _ & _ & _ & ->).
      by rewrite Hr.
Qed.

(** A task that raises leaves its exception with [gather]. *)
Lemma exec_fault_raises (sched : list event) (s s' : loop_state) (i : nat)
    (jar : jar_path) :
  exec cfg w jars sched s = Some s' →
  Finish i ∈ sched → jars !! i = Some jar →
  is_Some (w_fault w (jar_name jar)) →
  is_Some (raised s').
Proof.
  intros Hexec Hin Hjar [f Hf]. revert s Hexec.
  induction sched as [|ev sched IH]; intros s; simpl.
  - by apply elem_of_nil in Hin.
  - destruct (step cfg w jars ev s) as [s1|] eqn:Hstep; [|done]. intros Hexec.
    apply elem_of_cons in Hin as [<-|Hin]; [|by apply (IH Hin s1)].
    apply step_finish_inv in Hstep
      as (jar' & res & _ & Hjar' & Hproc & _ & _ & Hraised).
    assert (jar' = jar) as -> by congruence.
    pose proof (process_jar_raises jar (self s) f Hf) as Hres.
    rewrite Hproc in Hres. simpl in Hres. subst res.
    destruct (raised s) as [e|] eqn:Hr;
      erewrite (exec_raised_sticky sched s1 s' _ Hraised Hexec); eauto.
Qed.

Lemma done_records_acquire (ts : list task_state) (js : list jar_path) (i : nat) :
  ts !! i = Some Waiting →
  done_records (w_session w) (<[i := Holding]> ts) js
  = done_records (w_session w) ts js.
Proof.
  revert js i. induction ts as [|t ts IH]; intros js i Hi; [done|].
  destruct js as [|j js]; [by destruct i|].
  destruct i as [|i]; simpl in Hi; cbn [insert list_insert done_records].
  - injection Hi as ->. by repeat case_decide.
  - by rewrite IH.
Qed.

Lemma done_records_finish (ts : list task_state) (js : list jar_path) (i : nat)
    (jar : jar_path) :
  ts !! i = Some Holding → js !! i = Some jar →
  done_records (w_session w) (<[i := Done]> ts) js
  ≡ₚ done_records (w_session w) ts js ++ [make_mod_info (w_session w) jar].
Proof.
  revert js i. induction ts as [|t ts IH]; intros js i Hi Hj; [done|].
  destruct js as [|j js]; [done|].
  destruct i as [|i]; simpl in Hi, Hj; cbn [insert list_insert done_records].
  - injection Hi as ->. injection Hj as ->. repeat case_decide; try done.
    simpl. by rewrite <- Permutation_cons_append.
  - rewrite (IH js i Hi Hj). by rewrite (assoc (++)).
Qed.

Lemma done_records_waiting (js : list jar_path) :
  done_records (w_session w) (replicate (length js) Waiting) js = [].
Proof. induction js as [|j js IH]; simpl; done. Qed.

Lemma done_records_all (ts : list task_state) (js : list jar_path) :
  Forall (λ t, t = Done) ts → length ts = length js →
  done_records (w_session w) ts js = make_mod_info (w_session w) <$> js.
Proof.
  intros Hall. revert js. induction Hall as [|t ts -> _ IH]; intros js Hlen.
  - by destruct js.
  - destruct js as [|j js]; [done|]. injection Hlen as Hlen.
    cbn [done_records]. rewrite (IH js Hlen). by case_decide.
Qed.

Lemma all_done_Forall (s : loop_state) :
  all_done s = true → Forall (λ t, t = Done) (tasks s).
Proof.
  unfold all_done. induction (tasks s) as [|t ts IH]; simpl; [constructor|].
  rewrite andb_true_iff. intros [Ht Hts]. constructor; [|by apply IH].
  by apply bool_decide_eq_true_1 in Ht.
Qed.

(** In a world without faults the records in [all_mods] are those of the
    tasks that have returned, and [gather] holds no exception. *)
Lemma exec_fault_free (sched : list event) (s s' : loop_state) :
  (∀ jar, jar ∈ jars → w_fault w (jar_name jar) = None) →
  exec cfg w jars sched s = Some s' →
  raised s = None → length (tasks s) = length jars →
  all_mods (self s) ≡ₚ done_records (w_session w) (tasks s) jars →
  raised s' = None ∧ length (tasks s') = length jars
  ∧ all_mods (self s') ≡ₚ done_records (w_session w) (tasks s') jars.
Proof.
  intros Hquiet. revert s. induction sched as [|ev sched IH]; intros s; simpl.
  - by intros [= <-].
  - destruct (step cfg w jars ev s) as [s1|] eqn:Hstep; [|done].
    intros Hexec Hr Hlen Hmods. apply (IH s1 Hexec); destruct ev as [i|i].
    + apply step_acquire_inv in Hstep as (_ & _ & _ & _ & ->). done.
    + apply step_finish_inv in Hstep
        as (jar & res & _ & Hjar & Hproc & _ & _ & ->).
      destruct (process_jar_returns jar (self s)) as (st' & Hp & _).
      { apply Hquiet. by eapply list_elem_of_lookup_2. }
      rewrite Hp in Hproc. injection Hproc as _ <-. by rewrite Hr.
    + apply step_acquire_inv in Hstep as (_ & _ & -> & _). by rewrite length_insert.
    + apply step_finish_inv in Hstep as (? & ? & _ & _ & _ & _ & -> & _).
      by rewrite length_insert.
    + apply step_acquire_inv in Hstep as (Hi & _ & -> & -> & _).
      by rewrite (done_records_acquire _ _ _ Hi).
    + apply step_finish_inv in Hstep
        as (jar & res & Hi & Hjar & Hproc & _ & -> & _).
      destruct (process_jar_returns jar (self s)) as (st' & Hp & Hst').
      { apply Hquiet. by eapply list_elem_of_lookup_2. }
      rewrite Hp in Hproc. injection Hproc as <- <-.
      rewrite Hst', (done_records_finish _ _ _ _ Hi Hjar). by rewrite Hmods.
Qed.

Lemma insert_middle {A} (l1 l2 : list A) (x y : A) :
  <[length l1 := y]> (l1 ++ x :: l2) = l1 ++ y :: l2.
Proof. induction l1 as [|a l1 IH]; simpl; [done | by rewrite IH]. Qed.

Lemma Forall_all_done (s : loop_state) :
  Forall (λ t, t = Done) (tasks s) → all_done s = true.
Proof.
  unfold all_done. induction 1 as [|t ts -> _ IH]; simpl; done.
Qed.

(** Running the tasks one after the other is a run of the loop, if there is
    at least one slot: it ends with every task returned, or with an
    exception for [gather]. *)
Lemma exec_sequential_from (n : nat) (ds : list task_state) (s : loop_state) :
  tasks s = ds ++ replicate n Waiting →
  length ds + n = length jars →
  1 ≤ sem_value s →
  Forall (λ t, t = Done ∨ is_Some (raised s)) ds →
  ∃ s', exec cfg w jars (i ← seq (length ds) n; [Acquire i; Finish i]) s = Some s'
        ∧ (is_Some (raised s') ∨ all_done s' = true).
Proof.
  revert ds s. induction n as [|n IH]; intros ds s Htasks Hlen Hsem Hds.
  - exists s. split; [done|]. simpl in Htasks. rewrite app_nil_r in Htasks.
    destruct (raised s) as [e|] eqn:Hr; [left; eauto|right].
    apply Forall_all_done. rewrite Htasks.
    eapply Forall_impl; [exact Hds|]. simpl.
    intros t [?|[? ?]]; [done | discriminate].
  - simpl seq. rewrite bind_cons. simpl replicate in Htasks.
    assert (Hwait : tasks s !! length ds = Some Waiting)
      by (rewrite Htasks; by apply list_lookup_middle).
    destruct (jars !! length ds) as [jar|] eqn:Hjar;
      [|apply lookup_ge_None in Hjar; lia].
    destruct (sem_value s) as [|v] eqn:Hv; [lia|].
    destruct (process_jar_with_sem cfg w (length jars) jar (self s)) as [st res] eqn:Hp.
    set (t := match res with Return _ => Done | Raise e => Failed e end).
    set (r := match raised s, res with
              | Some e, _ => Some e
              | None, Raise e => Some e
              | None, Return _ => None
              end).
    destruct (IH (ds ++ [t])
                {| sem_value := S v; tasks := ds ++ t :: replicate n Waiting;
                   self := st; raised := r |}) as (s' & Hexec & Hend).
    + simpl. by rewrite <- (assoc (++)).
    + rewrite length_app. simpl. lia.
    + simpl. lia.
    + simpl. apply Forall_app. split.
      * eapply Forall_impl; [exact Hds|]. simpl.
        intros t0 [?|[e He]]; [by left|right]. subst r. rewrite He. eauto.
      * constructor; [|constructor]. subst t r.
        destruct res; [by left|right]. destruct (raised s); eauto.
    + exists s'. split; [|exact Hend].
      rewrite length_app in Hexec. simpl in Hexec.
      rewrite Nat.add_1_r in Hexec. rewrite <- Hexec.
      cbn [app exec step]. rewrite Hwait, Hv. cbn [tasks].
      rewrite Htasks, insert_middle, (list_lookup_middle _ _ _ _ eq_refl), Hjar.
      cbn [self]. rewrite Hp. cbn [sem_value tasks raised].
      by rewrite insert_middle.
Qed.

Lemma sequential_run_completes :
  1 ≤ max_threads cfg → is_Some (analyze_mods cfg w jars (sequential (length jars))).
Proof.
  intros Hn. unfold analyze_mods. case_bool_decide; [eauto|].
  destruct (if gen_folder cfg then w_mkdir w else None); [eauto|].
  destruct (exec_sequential_from (length jars) [] (initial cfg jars))
    as (s' & Hexec & Hend); [done | done | done | constructor |].
  unfold sequential. simpl in Hexec. rewrite Hexec.
  destruct (raised s') as [e|] eqn:Hr; [eauto|].
  destruct Hend as [[? ?]| ->]; [done|].
  destruct (gen_log cfg); [|eauto].
  destruct (gen_folder cfg || w_out_dir_exists w); [|eauto].
  destruct (write_report (all_mods (self s'))); eauto.
Qed.

(** [analyze_mods] for a non-empty listing, once the output folders are
    there: the loop has run along the schedule, and the run ends with the
    exception that [gather] holds, or with every task returned. *)
Lemma analyze_mods_loop (sched : list event) (r : run_result) :
  jars ≠ [] →
  (gen_folder cfg = true → w_mkdir w = None) →
  analyze_mods cfg w jars sched = Some r →
  ∃ s, exec cfg w jars sched (initial cfg jars) = Some s
       ∧ r_state r = self s
       ∧ match raised s with
         | Some e => r_outcome r = Raise e ∧ r_report r = None
                     ∧ r_finished_dir r = false
         | None => all_done s = true
         end.
Proof.
  intros Hne Hmk. unfold analyze_mods.
  rewrite bool_decide_eq_false_2 by (by destruct jars).
  assert ((if gen_folder cfg then w_mkdir w else None) = None) as ->.
  { destruct (gen_folder cfg); [by apply Hmk | done]. }
  destruct (exec cfg w jars sched (initial cfg jars)) as [s|]; [|done].
  intros Hrun. exists s. split; [done|].
  destruct (raised s) as [e|]; [by injection Hrun as <-|].
  destruct (all_done s); [|done]. split; [|done].
  repeat match type of Hrun with
         | (if ?b then _ else _) = _ => destruct b
         | match ?o with _ => _ end = _ => destruct o
         end;
    by injection Hrun as <-.
Qed.

(** What [analyze_mods] returns for a non-empty listing when no task can
    raise, the output folders can be made, the log file can be opened and
    the line of every record can be encoded. *)
Lemma analyze_mods_fault_free (sched : list event) (r : run_result) :
  jars ≠ [] →
  (∀ jar, jar ∈ jars → w_fault w (jar_name jar) = None) →
  (gen_folder cfg = true → w_mkdir w = None) →
  (gen_log cfg = true → gen_folder cfg || w_out_dir_exists w = true) →
  (gen_log cfg = true →
   Forall (λ jar, writable (make_mod_info (w_session w) jar) = true) jars) →
  analyze_mods cfg w jars sched = Some r →
  r_outcome r = Return () ∧ r_finished_dir r = true
  ∧ all_mods (r_state r) ≡ₚ make_mod_info (w_session w) <$> jars
  ∧ r_report r = if gen_log cfg
                 then Some (report_text (all_mods (r_state r))) else None.
Proof.
  intros Hne Hquiet Hmk Hdir Henc. unfold analyze_mods.
  rewrite bool_decide_eq_false_2 by (by destruct jars).
  assert ((if gen_folder cfg then w_mkdir w else None) = None) as ->.
  { destruct (gen_folder cfg); [by apply Hmk | done]. }
  destruct (exec cfg w jars sched (initial cfg jars)) as [s|] eqn:Hexec; [|done].
  destruct (exec_fault_free sched _ s Hquiet Hexec) as (Hr & Hlen & Hmods).
  { done. }
  { simpl. by rewrite length_replicate. }
  { simpl. by rewrite done_records_waiting. }
  rewrite Hr. destruct (all_done s) eqn:Hall; [|done].
  apply all_done_Forall in Hall.
  rewrite (done_records_all _ _ Hall Hlen) in Hmods.
  destruct (gen_log cfg); [|by intros [= <-]].
  rewrite Hdir by done. rewrite write_report_returns.
  - by intros [= <-].
  - rewrite Hmods. apply Forall_fmap. by apply Henc.
Qed.

(** What [analyze_mods] returns when a task of the schedule raises. *)
Lemma analyze_mods_fault (sched : list event) (r : run_result) (i : nat)
    (jar : jar_path) :
  jars ≠ [] →
  analyze_mods cfg w jars sched = Some r →
  Finish i ∈ sched → jars !! i = Some jar →
  is_Some (w_fault w (jar_name jar)) →
  (∃ e, r_outcome r = Raise e) ∧ r_report r = None ∧ r_finished_dir r = false.
Proof.
  intros Hne Hrun Hin Hjar Hf. unfold analyze_mods in Hrun.
  rewrite bool_decide_eq_false_2 in Hrun by (by destruct jars).
  destruct (if gen_folder cfg then w_mkdir w else None) as [e|].
  { injection Hrun as <-. simpl. eauto. }
  destruct (exec cfg w jars sched (initial cfg jars)) as [s|] eqn:Hexec; [|done].
  destruct (exec_fault_raises sched _ s i jar Hexec Hin Hjar Hf) as [e He].
  rewrite He in Hrun. injection Hrun as <-. simpl. eauto.
Qed.

(** With the folder option off and no output directory beforehand, the
    log file cannot be opened. *)
Lemma analyze_mods_no_directory (sched : list event) (r : run_result) :
  jars ≠ [] → gen_log cfg = true → gen_folder cfg = false →
  w_out_dir_exists w = false →
  analyze_mods cfg w jars sched = Some r →
  (∃ e, r_outcome r = Raise e) ∧ r_report r = None ∧ r_finished_dir r = false.
Proof.
  intros Hne Hlog Hfolder Hdir. unfold analyze_mods.
  rewrite bool_decide_eq_false_2 by (by destruct jars).
  rewrite Hlog, Hfolder, Hdir. cbn [orb].
  destruct (exec cfg w jars sched (initial cfg jars)) as [s|]; [|done].
  destruct (raised s) as [e|]; [|destruct (all_done s); [|done]];
    intros [= <-]; cbn [r_outcome r_report r_finished_dir]; eauto.
Qed.

End Run.

(** C1 (amended).  Over a non-empty listing and with at least one slot
    there is a run in which [analyze_mods] comes to an end.  For every run
    that comes to an end: when a task of the run raises, [analyze_mods]
    ends with an exception, writes no report and does not signal the output
    directory; if the output folders could be made, that exception is the
    one of a task that raised, re-raised by [gather], and the records of the
    tasks that returned are in [all_mods] all the same.  When no task can
    raise, the folders can be made, the log file can be opened and the line
    of every record can be encoded, the run returns, [all_mods] holds the
    records of all the archives, and the report is written from them. *)
Theorem task_fault_reaches_aggregator `{Builtins} (cfg : config) (w : world)
    (jars : list jar_path) (sched : list event) :
  jars ≠ [] →
  (1 ≤ max_threads cfg →
   is_Some (analyze_mods cfg w jars (sequential (length jars))))
  ∧ ∀ r, analyze_mods cfg w jars sched = Some r →
      (∀ i jar, Finish i ∈ sched → jars !! i = Some jar →
         is_Some (w_fault w (jar_name jar)) →
         ((∃ e, r_outcome r = Raise e) ∧ r_report r = None
          ∧ r_finished_dir r = false)
         ∧ ((gen_folder cfg = true → w_mkdir w = None) →
            ∃ j jar' f, Finish j ∈ sched ∧ jars !! j = Some jar'
                        ∧ w_fault w (jar_name jar') = Some f
                        ∧ r_outcome r = Raise (fault_message f)))
      ∧ ((gen_folder cfg = true → w_mkdir w = None) →
         ∀ i jar, Finish i ∈ sched → jars !! i = Some jar →
           w_fault w (jar_name jar) = None →
           make_mod_info (w_session w) jar ∈ all_mods (r_state r))
      ∧ ((∀ jar, jar ∈ jars → w_fault w (jar_name jar) = None) →
         gen_log cfg = true →
         (gen_folder cfg = true → w_mkdir w = None) →
         gen_folder cfg || w_out_dir_exists w = true →
         Forall (λ jar, writable (make_mod_info (w_session w) jar) = true) jars →
         r_outcome r = Return ()
         ∧ all_mods (r_state r) ≡ₚ make_mod_info (w_session w) <$> jars
         ∧ r_report r = Some (report_text (all_mods (r_state r)))).
Proof.
  intros Hne. split; [by apply sequential_run_completes|].
  intros r Hrun. split; [|split].
  - intros i jar Hin Hjar Hf.
    split; [by apply (analyze_mods_fault cfg w jars sched r i jar)|].
    intros Hmk.
    destruct (analyze_mods_loop cfg w jars sched r Hne Hmk Hrun)
      as (s & Hexec & _ & Hend).
    destruct (exec_fault_raises cfg w jars sched _ s i jar Hexec Hin Hjar Hf)
      as [e He].
    rewrite He in Hend. destruct Hend as (Hout & _).
    destruct (exec_raised_origin cfg w jars sched _ s e Hexec He)
      as [?|(j & jar' & f & ? & ? & ? & ->)]; [done|].
    exists j, jar', f. done.
  - intros Hmk i jar Hin Hjar Hf.
    destruct (analyze_mods_loop cfg w jars sched r Hne Hmk Hrun)
      as (s & Hexec & -> & _).
    rewrite (exec_records cfg w jars sched _ s Hexec). cbn [initial self all_mods app].
    apply list_elem_of_fmap_2, list_elem_of_filter. split.
    + unfold appends. by rewrite Hf.
    + unfold finished_jars. apply list_elem_of_omap.
      exists (Finish i). done.
  - intros Hquiet Hlog Hmk Hdir Henc.
    destruct (analyze_mods_fault_free cfg w jars sched r Hne Hquiet)
      as (Hout & _ & Hmods & Hrep); [done | done | done | done |].
    rewrite Hlog in Hrep. done.
Qed.

(** C8: where the code leaves the claim.  With an empty listing
    [analyze_mods] returns at once: one red message, no task, no record, no
    report, no signal for the output directory.  But the empty listing is
    not the only condition that ends the whole run: with the log option on
    and the folder option off, the directory of the log file is never
    made, and over any non-empty listing whose archives are all processed
    without fault the run still ends with the exception of [open].  Such a
    run exists with one slot; it has collected the record of every
    archive, writes no report and does not signal the output directory. *)
Theorem run_aborts_without_folders `{Builtins} (cfg : config) (w : world)
    (jars : list jar_path) (sched : list event) :
  analyze_mods cfg w [] sched
  = Some {| r_outcome := Return ();
            r_state := {| all_mods := [];
                          log := [(Py.lit "❌ 未找到 Jar 文件", Py.lit "red")];
                          progress := []; copied := [] |};
            r_report := None; r_finished_dir := false |}
  ∧ (jars ≠ [] → gen_log cfg = true → gen_folder cfg = false →
     w_out_dir_exists w = false →
     (∀ jar, jar ∈ jars → w_fault w (jar_name jar) = None) →
     (1 ≤ max_threads cfg →
      is_Some (analyze_mods cfg w jars (sequential (length jars))))
     ∧ ∀ r, analyze_mods cfg w jars sched = Some r →
         (∃ e, r_outcome r = Raise e)
         ∧ all_mods (r_state r) ≡ₚ make_mod_info (w_session w) <$> jars
         ∧ r_report r = None ∧ r_finished_dir r = false).
Proof.
  split; [reflexivity|].
  intros Hne Hlog Hfolder Hdir Hquiet.
  split; [by apply sequential_run_completes|].
  intros r Hrun.
  destruct (analyze_mods_no_directory cfg w jars sched r Hne Hlog Hfolder Hdir Hrun)
    as (Hout & Hrep & Hfin).
  split_and!; try done.
  destruct (analyze_mods_loop cfg w jars sched r Hne) as (s & Hexec & -> & Hend);
    [by rewrite Hfolder | done |].
  destruct (exec_fault_free cfg w jars sched _ s Hquiet Hexec) as (Hr & Hlen & Hmods).
  { done. }
  { simpl. by rewrite length_replicate. }
  { simpl. by rewrite done_records_waiting. }
  rewrite Hr in Hend. apply all_done_Forall in Hend.
  by rewrite (done_records_all _ _ _ Hend Hlen) in Hmods.
Qed.

(** C1, witness: three archives without fault, run one after the other;
    and two archives of which the first raises after the second has
    returned. *)
Lemma task_fault_reaches_aggregator_witness :
  (∃ r, @analyze_mods ascii_builtins default_config quiet_world three_jars
          (sequential 3) = Some r
        ∧ r_outcome r = Return ()
        ∧ all_mods (r_state r)
          ≡ₚ @make_mod_info ascii_builtins (w_session quiet_world) <$> three_jars
        ∧ r_report r = Some (@report_text ascii_builtins (all_mods (r_state r))))
  ∧ (∃ r, @analyze_mods ascii_builtins default_config
            (faulty_world (Py.lit "alpha.jar") (BeforeAppend deleted_object))
            two_jars [Acquire 0; Acquire 1; Finish 1; Finish 0] = Some r
          ∧ r_outcome r = Raise deleted_object ∧ r_report r = None
          ∧ r_finished_dir r = false
          ∧ @make_mod_info ascii_builtins offline
              (forge_jar "beta" "modLoader=javafml") ∈ all_mods (r_state r)).
Proof.
  split.
  - destruct (@task_fault_reaches_aggregator ascii_builtins default_config
                quiet_world three_jars (sequential 3)) as [Hruns Hall];
      [discriminate|].
    destruct Hruns as [r Hrun]; [simpl; lia|].
    exists r. split; [exact Hrun|].
    destruct (Hall r Hrun) as (_ & _ & Hquiet).
    apply Hquiet; [intros; reflexivity | reflexivity | reflexivity | reflexivity|].
    repeat constructor.
  - destruct (@task_fault_reaches_aggregator ascii_builtins default_config
                (faulty_world (Py.lit "alpha.jar") (BeforeAppend deleted_object))
                two_jars [Acquire 0; Acquire 1; Finish 1; Finish 0])
      as [_ Hall]; [discriminate|].
    destruct (@analyze_mods ascii_builtins default_config
                (faulty_world (Py.lit "alpha.jar") (BeforeAppend deleted_object))
                two_jars [Acquire 0; Acquire 1; Finish 1; Finish 0])
      as [r|] eqn:Hrun; [|vm_compute in Hrun; discriminate].
    exists r. split; [reflexivity|].
    destruct (Hall r eq_refl) as (Hfault & Hrecords & _).
    destruct (Hfault 0 (forge_jar "alpha" "clientOnly=true"))
      as ((_ & Hrep & Hfin) & _);
      [repeat (first [apply list_elem_of_here | apply list_elem_of_further])
      | reflexivity | vm_compute; eauto |].
    split; [vm_compute in Hrun; by injection Hrun as <-|].
    split; [exact Hrep|]. split; [exact Hfin|].
    apply (Hrecords ltac:(reflexivity) 1);
      [repeat (first [apply list_elem_of_here | apply list_elem_of_further])
      | reflexivity | reflexivity].
Defined.

(** C1, counterexample: two archives; the task of alpha.jar raises after
    the task of beta.jar has returned.  [analyze_mods] ends with the
    exception and writes no report, although the record of beta.jar is in
    [all_mods]. *)
Lemma sibling_result_not_reported :
  let w := faulty_world (Py.lit "alpha.jar") (BeforeAppend deleted_object) in
  let run := @analyze_mods ascii_builtins default_config w two_jars
               [Acquire 0; Acquire 1; Finish 1; Finish 0] in
  r_outcome <$> run = Some (Raise deleted_object)
  ∧ r_report <$> run = Some None
  ∧ r_finished_dir <$> run = Some false
  ∧ (λ r, mi_name <$> all_mods (r_state r)) <$> run = Some [Py.lit "beta.jar"].
Proof. vm_compute. repeat split. Qed.

(** C8, witness: the empty listing; and two archives that are processed
    without fault, with the log option on and the folder option off. *)
Lemma run_aborts_without_folders_witness :
  (r_outcome <$> @analyze_mods ascii_builtins no_folders quiet_world [] []
   = Some (Return ()))
  ∧ ∃ r, @analyze_mods ascii_builtins no_folders quiet_world two_jars
           (sequential (length two_jars)) = Some r
         ∧ (∃ e, r_outcome r = Raise e)
         ∧ all_mods (r_state r)
           ≡ₚ @make_mod_info ascii_builtins (w_session quiet_world) <$> two_jars
         ∧ r_report r = None ∧ r_finished_dir r = false.
Proof.
  split.
  - destruct (@run_aborts_without_folders ascii_builtins no_folders quiet_world
                [] []) as [-> _]. reflexivity.
  - destruct (@run_aborts_without_folders ascii_builtins no_folders quiet_world
                two_jars (sequential (length two_jars))) as [_ Hrest].
    destruct Hrest as [Hruns Hall];
      [discriminate | reflexivity | reflexivity | reflexivity
      | intros; reflexivity |].
    destruct Hruns as [r Hrun]; [simpl; lia|].
    exists r. split; [exact Hrun|]. by apply Hall.
Defined.

(** The log file is opened in the output directory, which only the folder
    option creates: with that option off, a run without any fault ends
    with the exception of [open]. *)
Example report_needs_output_directory :
  let cfg := {| gen_folder := false; gen_log := true; max_threads := 5 |} in
  let run := @analyze_mods ascii_builtins cfg quiet_world two_jars (sequential 2) in
  r_outcome <$> run = Some (Raise (Py.lit "[Errno 2] No such file or directory"))
  ∧ r_finished_dir <$> run = Some false
  ∧ (λ r, length (all_mods (r_state r))) <$> run = Some 2.
Proof. vm_compute. repeat split. Qed.

(** ** The text report *)

(** C4 (amended).  When [analyze_mods] writes the report, its text is the
    preamble followed by the three sections in the order server,
    client-only, parse-failed.  A section is its heading followed by one
    line per record of that category, the records being those of
    [all_mods] with that category, ordered by the lower-cased [name] (the
    file name of the archive).  The line of a record is
    [[<category>] <name>], then [ (<error>)] when there is a non-empty
    diagnostic, then [ | CF: <curseforge> | MR: <modrinth> | MC: <mcmod>]
    and a newline, where a missing Modrinth link is printed as [None]. *)
Theorem report_lines `{Builtins} (cfg : config) (w : world)
    (jars : list jar_path) (sched : list event) (r : run_result)
    (text : Py.str) (sec : category) (m : mod_info) :
  (analyze_mods cfg w jars sched = Some r → r_report r = Some text →
   text = report_text (all_mods (r_state r)))
  ∧ (∀ mods,
       report_text mods
       = preamble ++ section_text mods ServerSide
         ++ section_text mods ClientOnly ++ section_text mods ParseFailed
       ∧ section_text mods sec
         = nl ++ Py.lit "===== " ++ category_name sec ++ Py.lit " =====" ++ nl
           ++ nl ++ concat (item_line sec <$> bucket sec mods)
       ∧ bucket sec mods ≡ₚ filter (λ x, mi_category x = sec) mods
       ∧ StronglySorted name_le (bucket sec mods))
  ∧ item_line sec m
    = Py.lit "[" ++ category_name sec ++ Py.lit "] " ++ mi_name m
      ++ match mi_error m with
         | Some (c :: e) => Py.lit " (" ++ (c :: e) ++ Py.lit ")"
         | _ => []
         end
      ++ Py.lit " | CF: " ++ l_curseforge (mi_links m)
      ++ Py.lit " | MR: "
      ++ match l_modrinth (mi_links m) with
         | Some url => url
         | None => Py.lit "None"
         end
      ++ Py.lit " | MC: " ++ l_mcmod (mi_links m) ++ [10%N].
Proof.
  split; [|split].
  - unfold analyze_mods. intros Hrun Htext.
    repeat match type of Hrun with
           | (if ?b then _ else _) = _ => destruct b
           | match write_report ?mods with _ => _ end = _ =>
             destruct (write_report mods) as [t|e] eqn:Hwrite;
             [apply write_report_inv in Hwrite as [-> _]|]
           | match ?o with _ => _ end = _ => destruct o
           end;
      try discriminate Hrun;
      injection Hrun as <-; cbn [r_report r_state] in Htext |- *;
      congruence.
  - intros mods. split; [|split; [|split]].
    + unfold report_text. simpl concat. by rewrite app_nil_r.
    + reflexivity.
    + apply sorted_perm.
    + apply (sorted_StronglySorted (λ x, lower (mi_name x))).
  - unfold item_line. by destruct (mi_error m) as [[|c e]|].
Qed.

(** C4, witness: the report of a run over two archives. *)
Lemma report_lines_witness :
  ∃ r text,
    @analyze_mods ascii_builtins default_config quiet_world two_jars
      (sequential 2) = Some r
    ∧ r_report r = Some text
    ∧ text = @report_text ascii_builtins (all_mods (r_state r)).
Proof.
  destruct (@analyze_mods ascii_builtins default_config quiet_world two_jars
              (sequential 2)) as [r|] eqn:Hrun;
    [|vm_compute in Hrun; discriminate].
  destruct (r_report r) as [text|] eqn:Htext.
  - exists r, text. split; [reflexivity|]. split; [exact Htext|].
    apply (@report_lines ascii_builtins default_config quiet_world two_jars
             (sequential 2) r text ServerSide sodium_info);
      [exact Hrun | exact Htext].
  - vm_compute in Hrun. injection Hrun as <-. discriminate Htext.
Defined.

(** C4, counterexample: the line of a server-side record without Modrinth
    link carries the labels CF, MR and MC, and prints the missing link as
    None, where the claimed form has bare fields and an empty one. *)
Lemma report_line_is_labelled :
  mi_category sodium_info = ServerSide
  ∧ l_modrinth (mi_links sodium_info) = None
  ∧ item_line ServerSide sodium_info
    = Py.lit "[服务端] sodium.jar | CF: https://www.curseforge.com/minecraft/mc-mods/sodium | MR: None | MC: https://search.mcmod.cn/s?key=sodium"
      ++ [10%N]
  ∧ spec_item_line ServerSide sodium_info
    = Py.lit "[服务端] sodium.jar | https://www.curseforge.com/minecraft/mc-mods/sodium |  | https://search.mcmod.cn/s?key=sodium"
      ++ [10%N]
  ∧ item_line ServerSide sodium_info ≠ spec_item_line ServerSide sodium_info.
Proof. vm_compute. repeat split. discriminate. Qed.

(** The buckets ignore case: Beta.jar comes after alpha.jar. *)
Example bucket_ignores_case :
  let mk name := {| mi_name := Py.lit name; mi_category := ClientOnly;
                    mi_links := mi_links sodium_info; mi_error := None;
                    mi_icon_data := None |} in
  mi_name <$> @bucket ascii_builtins ClientOnly
                [mk "Beta.jar"; sodium_info; mk "alpha.jar"; mk "Alpha.jar"]
  = [Py.lit "alpha.jar"; Py.lit "Alpha.jar"; Py.lit "Beta.jar"].
Proof. reflexivity. Qed.

(** ** The program on small inputs *)

(** A Forge manifest with [clientOnly = true] puts the archive in the
    client-only category, without diagnostic. *)
Example forge_client_archive :
  let m := @make_mod_info ascii_builtins offline
             (forge_jar "alpha" "clientOnly = true") in
  mi_name m = Py.lit "alpha.jar" ∧ mi_category m = ClientOnly
  ∧ mi_error m = None
  ∧ l_curseforge (mi_links m)
    = Py.lit "https://www.curseforge.com/minecraft/mc-mods/alpha".
Proof. vm_compute. repeat split. Qed.

(** The scan is by line, not by structure: a comment that mentions the key
    and the word counts as a declaration. *)
Example forge_comment_counts :
  classify (@parse_forge ascii_builtins
              (Py.lit "# clientOnly used to be true here") (Py.lit "mod"))
  = ClientOnly.
Proof. reflexivity. Qed.

(** An archive with neither manifest is parse-failed, with the diagnostic
    of [read_metadata]. *)
Example no_manifest_archive :
  let jar := {| jar_name := Py.lit "plain.jar"; jar_stem := Py.lit "plain";
                jar_zip := Archive [ {| filename := Py.lit "README.txt";
                                        contents := Return [] |} ] |} in
  let m := @make_mod_info ascii_builtins offline jar in
  mi_category m = ParseFailed
  ∧ mi_error m = Some (Py.lit "未找到mods.toml或fabric.mod.json").
Proof. vm_compute. repeat split. Qed.

(** A file that is not a zip archive is parse-failed, with the message of
    the exception. *)
Example unreadable_archive :
  let jar := {| jar_name := Py.lit "broken.jar"; jar_stem := Py.lit "broken";
                jar_zip := BadArchive (Py.lit "File is not a zip file") |} in
  let m := @make_mod_info ascii_builtins offline jar in
  mi_category m = ParseFailed
  ∧ mi_error m = Some (Py.lit "File is not a zip file").
Proof. vm_compute. repeat split. Qed.

(** A Fabric record is client-only exactly for the environment "client". *)
Example fabric_environments :
  let fabric env := {| m_loader := Some (Py.lit "fabric");
                       m_id := Some (Py.lit "examplemod");
                       m_name := Py.lit "Example Mod"; m_env := env;
                       m_client_only := false; m_icon := None |} in
  classify (Some (fabric (Some (Py.lit "client")))) = ClientOnly
  ∧ classify (Some (fabric (Some (Py.lit "*")))) = ServerSide
  ∧ classify (Some (fabric (Some (Py.lit "server")))) = ServerSide
  ∧ classify (Some (fabric None)) = ServerSide.
Proof. vm_compute. repeat split. Qed.

(** Without a hit of the right slug no score reaches the threshold: the
    title alone gives at most 50. *)
Example title_alone_is_not_enough :
  @modrinth_link ascii_builtins
    {| m_loader := Some (Py.lit "forge"); m_id := None;
       m_name := Py.lit "Sodium"; m_env := None; m_client_only := false;
       m_icon := None |}
    (λ _, Reply 200 (Some [ {| slug := Some (Py.lit "sodium");
                               title := Some (JString (Py.lit "Sodium")) |} ]))
  = None.
Proof. reflexivity. Qed.

(** The free slot of a finished task lets a waiting task in. *)
Example slot_is_reused :
  holding <$> @exec ascii_builtins two_workers quiet_world three_jars
                [Acquire 0; Acquire 2; Finish 0; Acquire 1]
                (initial two_workers three_jars)
  = Some 2.
Proof. reflexivity. Qed.

(** * Further properties *)

(** ** Cleaning and the Fabric manifest *)

(** X1.  [clean_json] keeps the code points outside its character class,
    in their order, and nothing else: the result holds no code point of the
    class, a text without any is unchanged, cleaning twice is cleaning
    once, and cleaning distributes over concatenation.  Tab, line feed and
    carriage return are outside the class.  Hence [parse_fabric] gives the
    same result on a text and on the cleaned text. *)
Theorem clean_json_keeps_the_rest `{Builtins} (text rest jar_name : Py.str) :
  (∀ c, c ∈ clean_json text ↔ c ∈ text ∧ is_control c = false)
  ∧ clean_json text `sublist_of` text
  ∧ (Forall (λ c, is_control c = false) text → clean_json text = text)
  ∧ clean_json (clean_json text) = clean_json text
  ∧ clean_json (text ++ rest) = clean_json text ++ clean_json rest
  ∧ (∀ c, c ∈ [9; 10; 13]%N → clean_json (c :: text) = c :: clean_json text)
  ∧ parse_fabric (clean_json text) jar_name = parse_fabric text jar_name.
Proof.
  assert (Hfix : ∀ t : Py.str, Forall (λ c, is_control c = false) t →
                   clean_json t = t).
  { intros t. unfold clean_json, Py.str. induction 1 as [|c t Hc _ IH]; [done|].
    rewrite filter_cons, IH. by case_decide. }
  assert (Hidem : clean_json (clean_json text) = clean_json text).
  { apply Hfix, Forall_forall. intros c Hc.
    by apply list_elem_of_filter in Hc as [Hc _]. }
  split_and!.
  - intros c. unfold clean_json, Py.str. rewrite list_elem_of_filter. tauto.
  - apply sublist_filter.
  - apply Hfix.
  - exact Hidem.
  - apply filter_app.
  - intros c Hc. unfold clean_json, Py.str. rewrite filter_cons.
    case_decide as Hctl; [done|]. exfalso. apply Hctl. clear -Hc.
    repeat (apply elem_of_cons in Hc as [->|Hc]; [done|]).
    by apply elem_of_nil in Hc.
  - unfold parse_fabric. by rewrite Hidem.
Qed.

(** X1, witness: a manifest text without control characters. *)
Lemma clean_json_keeps_the_rest_witness : clean_json example_manifest = example_manifest.
Proof.
  destruct (@clean_json_keeps_the_rest ascii_builtins example_manifest [] [])
    as (_ & _ & Hclean & _).
  apply Hclean. vm_compute. repeat constructor.
Defined.

Section Fabric.
Context `{Builtins}.

Lemma classify_fabric (meta : metadata) :
  m_loader meta = Some (Py.lit "fabric") →
  classify (Some meta)
  = if bool_decide (m_env meta = Some (Py.lit "client")) then ClientOnly
    else ServerSide.
Proof.
  intros Hl. unfold classify. rewrite Hl.
  by rewrite bool_decide_eq_true_2.
Qed.

(** X2.  When the cleaned text is a JSON object, [parse_fabric] returns a
    record with loader fabric whose id is the member "id", whose name is
    the member "name" unless that is absent or empty, in which case it is
    the name of the archive, and whose icon is the member "icon";
    [classify] puts the record in the client-only category exactly when
    the member "environment" is the string "client", and in the server
    category otherwise, in particular when the member is absent.  When
    [json.loads] raises, [parse_fabric] returns no record instead of
    raising. *)
Theorem fabric_client_only_iff (text jar_name : Py.str)
    (data : gmap string Py.str) :
  (json_loads (clean_json text) = JsonError →
   parse_fabric text jar_name = Return None)
  ∧ (json_loads (clean_json text) = JsonObject data →
     ∃ m, parse_fabric text jar_name = Return (Some m)
          ∧ m_loader m = Some (Py.lit "fabric")
          ∧ m_id m = data !! "id"
          ∧ m_icon m = data !! "icon"
          ∧ m_name m = match data !! "name" with
                       | Some (c :: n) => c :: n
                       | _ => jar_name
                       end
          ∧ (classify (Some m) = ClientOnly
             ↔ data !! "environment" = Some (Py.lit "client"))
          ∧ (data !! "environment" ≠ Some (Py.lit "client") →
             classify (Some m) = ServerSide)).
Proof.
  assert (Hstar : Py.lit "*" ≠ Py.lit "client") by (vm_compute; discriminate).
  unfold parse_fabric. split; [by intros ->|]. intros ->.
  eexists. split; [reflexivity|]. cbn [m_loader m_id m_icon m_name].
  split_and!; try done.
  - by destruct (data !! "name") as [[|c n]|].
  - rewrite classify_fabric by done. cbn [m_env].
    destruct (data !! "environment") as [env|]; cbn [default from_option id].
    + case_bool_decide as Henv; split; try done; intros; congruence.
    + rewrite bool_decide_eq_false_2 by congruence. split; discriminate.
  - intros Hne. rewrite classify_fabric by done. cbn [m_env].
    rewrite bool_decide_eq_false_2; [done|].
    destruct (data !! "environment") as [env|]; cbn [default from_option id];
      congruence.
Qed.

End Fabric.

(** X2, witness: the example manifest declares the environment "client". *)
Lemma fabric_client_only_iff_witness :
  ∃ m, @parse_fabric manifest_builtins example_manifest (Py.lit "examplemod-1.0")
       = Return (Some m)
       ∧ m_name m = Py.lit "Example Mod"
       ∧ classify (Some m) = ClientOnly.
Proof.
  destruct (@fabric_client_only_iff manifest_builtins example_manifest
              (Py.lit "examplemod-1.0") example_object) as [_ Hobj].
  destruct Hobj as (m & Hm & _ & _ & _ & Hname & Hiff & _); [reflexivity|].
  exists m. split; [exact Hm|]. split; [exact Hname|].
  apply Hiff. reflexivity.
Defined.

(** ** Reading an archive *)

Section Archives.
Context `{Builtins}.

(** The four shapes of what [read_metadata] returns. *)
Lemma scan_entries_cases (stem : Py.str) (entries : list zip_entry) :
  (∃ e, scan_entries stem entries = (Some (no_loader stem), Some e))
  ∨ scan_entries stem entries = (None, Some (Py.lit "fabric.mod.json解析失败"))
  ∨ (∃ m, scan_entries stem entries = (Some m, None)
          ∧ m_loader m = Some (Py.lit "fabric")
          ∧ (m_name m = stem ∨ Py.truthy (m_name m) = true))
  ∨ (∃ m, scan_entries stem entries = (Some m, None)
          ∧ m_loader m = Some (Py.lit "forge") ∧ m_name m = stem
          ∧ m_icon m = None).
Proof.
  induction entries as [|info rest IH]; simpl; [left; eauto|].
  destruct (Py.endswith (Py.lit "fabric.mod.json") (filename info)).
  - destruct (contents info) as [data|e]; [|left; eauto].
    unfold parse_fabric.
    destruct (json_loads (clean_json (safe_decode data))) as [|msg|obj].
    + right. left. reflexivity.
    + left. eauto.
    + right. right. left. eexists. split; [reflexivity|]. split; [done|].
      cbn [m_name]. destruct (obj !! "name") as [[|c n]|]; simpl; auto.
  - destruct (Py.endswith (Py.lit "mods.toml") (filename info)); [|exact IH].
    destruct (contents info) as [data|e]; [|left; eauto].
    right. right. right. eexists. split; [reflexivity|]. done.
Qed.

Lemma read_metadata_cases (jar : jar_path) :
  (∃ e, read_metadata jar = (Some (no_loader (jar_stem jar)), Some e))
  ∨ read_metadata jar = (None, Some (Py.lit "fabric.mod.json解析失败"))
  ∨ (∃ m, read_metadata jar = (Some m, None)
          ∧ m_loader m = Some (Py.lit "fabric")
          ∧ (m_name m = jar_stem jar ∨ Py.truthy (m_name m) = true))
  ∨ (∃ m, read_metadata jar = (Some m, None)
          ∧ m_loader m = Some (Py.lit "forge") ∧ m_name m = jar_stem jar
          ∧ m_icon m = None).
Proof.
  unfold read_metadata. destruct (jar_zip jar) as [e|entries]; [left; eauto|].
  apply scan_entries_cases.
Qed.

(** X3.  The first manifest entry of an archive decides: what comes after
    it in the archive has no influence on what [read_metadata] returns, so
    of a Fabric and a Forge manifest in one archive the earlier one is
    used. *)
Theorem first_manifest_decides (jar jar' : jar_path)
    (pre post post' : list zip_entry) (info : zip_entry) :
  jar_zip jar = Archive (pre ++ info :: post) →
  jar_zip jar' = Archive (pre ++ info :: post') →
  jar_stem jar = jar_stem jar' →
  Forall not_a_manifest pre →
  Py.endswith (Py.lit "fabric.mod.json") (filename info) = true
  ∨ Py.endswith (Py.lit "mods.toml") (filename info) = true →
  read_metadata jar = read_metadata jar'.
Proof.
  intros Hzip Hzip' Hstem Hpre Hinfo. unfold read_metadata.
  rewrite Hzip, Hzip', Hstem, !(scan_entries_skip _ _ _ Hpre). simpl.
  destruct (Py.endswith (Py.lit "fabric.mod.json") (filename info)); [done|].
  destruct Hinfo as [?| ->]; done.
Qed.

(** X4.  An archive is classified as parse-failed exactly when
    [read_metadata] reports a diagnostic; and [read_metadata] returns no
    metadata at all only with the diagnostic of the Fabric parser. *)
Theorem parse_failed_iff_diagnostic (jar : jar_path) :
  (classify (fst (read_metadata jar)) = ParseFailed
   ↔ is_Some (snd (read_metadata jar)))
  ∧ (fst (read_metadata jar) = None →
     snd (read_metadata jar) = Some (Py.lit "fabric.mod.json解析失败")).
Proof.
  destruct (read_metadata_cases jar)
    as [[e ->]| [ -> | [(m & -> & Hl & _)|(m & -> & Hl & _)]]];
    cbn [fst snd].
  - split; [|done]. split; [eauto | reflexivity].
  - split; [|done]. split; [eauto | reflexivity].
  - split; [|done]. rewrite (classify_fabric m Hl).
    split; [by case_bool_decide | by intros [? ?]].
  - split; [|done]. rewrite (classify_forge m Hl).
    split; [by destruct (m_client_only m) | by intros [? ?]].
Qed.

(** X5.  The name of a record that [read_metadata] returns is the stem of
    the archive, unless a Fabric manifest names the mod with a non-empty
    string.  So for an archive with a non-empty stem the name is not
    empty, and neither is the query that [modrinth_link] builds from the
    record. *)
Theorem record_name_from_stem (jar : jar_path) (m : metadata) :
  fst (read_metadata jar) = Some m →
  (m_name m = jar_stem jar
   ∨ (m_loader m = Some (Py.lit "fabric") ∧ Py.truthy (m_name m) = true))
  ∧ (Py.truthy (jar_stem jar) = true →
     Py.truthy (m_name m) = true ∧ Py.truthy (search_query m) = true).
Proof.
  intros Hm.
  assert (Hname : m_name m = jar_stem jar
                  ∨ (m_loader m = Some (Py.lit "fabric")
                     ∧ Py.truthy (m_name m) = true)).
  { destruct (read_metadata_cases jar)
      as [[e Hr]| [Hr| [(m' & Hr & Hl & Hn)|(m' & Hr & Hl & Hn & _)]]];
      rewrite Hr in Hm; simpl in Hm; try discriminate;
      injection Hm as <-; auto.
    destruct Hn; auto. }
  split; [exact Hname|]. intros Hstem.
  assert (Htruthy : Py.truthy (m_name m) = true).
  { destruct Hname as [ -> |[_ ?]]; done. }
  split; [exact Htruthy|]. unfold search_query.
  destruct (m_id m) as [[|c i]|]; done.
Qed.

End Archives.

(** X3, witness: the Fabric manifest of the example archive precedes its
    Forge manifest; the record is the Fabric one, as for the archive
    without the Forge manifest. *)
Lemma first_manifest_decides_witness :
  @read_metadata manifest_builtins fabric_jar
  = @read_metadata manifest_builtins
      {| jar_name := Py.lit "examplemod-1.0.jar";
         jar_stem := Py.lit "examplemod-1.0";
         jar_zip := Archive
           [ {| filename := Py.lit "icon.png";
                contents := Return (bytes_of "PNG") |};
             {| filename := Py.lit "fabric.mod.json";
                contents := Return (ascii_bytes example_manifest) |} ] |}.
Proof.
  eapply (@first_manifest_decides manifest_builtins _ _
            [ {| filename := Py.lit "icon.png";
                 contents := Return (bytes_of "PNG") |} ]);
    [reflexivity | reflexivity | reflexivity | | left; reflexivity].
  repeat constructor.
Defined.

(** X5, witness: the example archive, named by its manifest. *)
Lemma record_name_from_stem_witness :
  ∃ m, fst (@read_metadata manifest_builtins fabric_jar) = Some m
       ∧ m_name m = Py.lit "Example Mod"
       ∧ Py.truthy (m_name m) = true
       ∧ Py.truthy (search_query m) = true.
Proof.
  destruct (fst (@read_metadata manifest_builtins fabric_jar)) as [m|] eqn:Hm;
    [|vm_compute in Hm; discriminate].
  exists m. split; [reflexivity|]. split.
  - vm_compute in Hm. injection Hm as <-. reflexivity.
  - apply (@record_name_from_stem manifest_builtins fabric_jar m Hm).
    reflexivity.
Defined.

(** X4, witness: a Fabric manifest that is not JSON. *)
Lemma parse_failed_iff_diagnostic_witness :
  let jar := {| jar_name := Py.lit "broken.jar"; jar_stem := Py.lit "broken";
                jar_zip := Archive [ {| filename := Py.lit "fabric.mod.json";
                                        contents := Return (bytes_of "{") |} ] |} in
  snd (@read_metadata ascii_builtins jar) = Some (Py.lit "fabric.mod.json解析失败")
  ∧ classify (fst (@read_metadata ascii_builtins jar)) = ParseFailed.
Proof.
  intros jar.
  destruct (@parse_failed_iff_diagnostic ascii_builtins jar) as [Hiff Hnone].
  split; [apply Hnone; reflexivity|].
  apply Hiff. rewrite Hnone by reflexivity. eauto.
Defined.

(** ** Matching, icons and the link row *)

Section Enrichment.
Context `{Builtins}.

Lemma truthy_app_l (a b : Py.str) :
  Py.truthy a = true → Py.truthy (a ++ b) = true.
Proof. by destruct a. Qed.

(** X6.  The threshold separates the hits by their slug: a hit reaches the
    score 60 exactly when the record has a non-empty id equal to the slug
    of the hit.  So [modrinth_link] returns a link only when the record
    has a non-empty id, the catalog answered the query for that id with
    status 200 and a list of hits, and one of the hits has that id as its
    slug; the link is then the one of that id.  A similar title alone
    never yields a link. *)
Theorem link_only_for_identifier (meta : metadata) (s : session) (url : Py.str) :
  (∀ h, Qle_bool 60 (hit_score meta h) = slug_matches meta h)
  ∧ (modrinth_link meta s = Some url →
     ∃ ident hits h,
       m_id meta = Some ident ∧ Py.truthy ident = true
       ∧ s ident = Reply 200 (Some hits)
       ∧ h ∈ hits ∧ slug h = Some ident
       ∧ url = Py.lit "https://modrinth.com/mod/" ++ ident).
Proof.
  assert (Hthreshold : ∀ h, Qle_bool 60 (hit_score meta h) = slug_matches meta h).
  { intros h. destruct (slug_matches meta h) eqn:Hm.
    - apply Qle_bool_iff. pose proof (hit_score_match meta h Hm). lra.
    - destruct (Qle_bool 60 (hit_score meta h)) eqn:Hq; [|done].
      apply Qle_bool_iff in Hq. pose proof (hit_score_no_match meta h Hm). lra. }
  split; [exact Hthreshold|].
  unfold modrinth_link.
  destruct (negb (Py.truthy (search_query meta))); [done|].
  destruct (s (search_query meta)) as [|status [hits|]] eqn:Hreply; try done;
    destruct (negb (status =? 200)%Z) eqn:Hstatus; try done.
  apply negb_false_iff, Z.eqb_eq in Hstatus. subst status.
  destruct (scoring_loop meta hits (None, 0%Q)) as [[best score]|] eqn:Hloop;
    [|done].
  apply scoring_loop_inv in Hloop as [Hbest _]. symmetry in Hbest.
  fold (best_hit meta hits) in Hbest.
  destruct (Qle_bool 60 score) eqn:Hacc; [|done].
  destruct best as [b|]; [|done].
  destruct (proj1 (best_hit_inv meta hits) b score Hbest)
    as (pre & post & Hhits & Hscore & _).
  rewrite Hscore, Hthreshold in Hacc.
  unfold slug_matches in Hacc. apply andb_true_iff in Hacc as [Hid Hb].
  apply bool_decide_eq_true_1 in Hb. rewrite Hb.
  destruct (m_id meta) as [ident|] eqn:Hident; [|done].
  intros [= <-]. exists ident, hits, b.
  unfold search_query in Hreply. rewrite Hident in Hreply.
  cbn [Py.truthy_opt] in Hid, Hreply. rewrite Hid in Hreply.
  split_and!; try done.
  rewrite Hhits. apply elem_of_app. right. apply list_elem_of_here.
Qed.

(** Where the links of a record come from. *)
Lemma make_mod_info_links (s : session) (jar : jar_path) :
  let m := make_mod_info s jar in
  let n := match fst (read_metadata jar) with
           | Some meta => m_name meta
           | None => jar_stem jar
           end in
  mi_name m = jar_name jar
  ∧ mi_category m = classify (fst (read_metadata jar))
  ∧ mi_error m = snd (read_metadata jar)
  ∧ l_curseforge (mi_links m) = curseforge_link n
  ∧ l_mcmod (mi_links m) = mcmod_link n
  ∧ l_modrinth (mi_links m)
    = match fst (read_metadata jar) with
      | Some meta => modrinth_link meta s
      | None => None
      end.
Proof.
  unfold make_mod_info. by destruct (read_metadata jar) as [meta error].
Qed.

(** X13.  In the link row that [on_mod] builds for a record of the
    analyzer, the CurseForge and the MC-wiki buttons are always enabled,
    the Modrinth button is enabled exactly when a link was found, and the
    label for a row without any link is never added. *)
Theorem link_row_of_record (s : session) (jar : jar_path) :
  link_enabled (make_mod_info s jar)
  = [true; bool_decide (is_Some (l_modrinth (mi_links (make_mod_info s jar))));
     true]
  ∧ no_links_label (make_mod_info s jar) = false.
Proof.
  destruct (make_mod_info_links s jar) as (_ & _ & _ & Hcf & Hmc & Hmr).
  assert (Henabled : link_enabled (make_mod_info s jar)
            = [true; bool_decide (is_Some (l_modrinth
                                             (mi_links (make_mod_info s jar))));
               true]).
  { unfold link_enabled. rewrite Hcf, Hmc.
    unfold curseforge_link, mcmod_link. rewrite !truthy_app_l by reflexivity.
    destruct (l_modrinth (mi_links (make_mod_info s jar))) as [url|] eqn:Hurl;
      [|done].
    rewrite bool_decide_eq_true_2 by eauto. cbn [Py.truthy_opt].
    symmetry in Hmr.
    destruct (fst (read_metadata jar)) as [meta|]; [|done].
    destruct (link_needs_identifier meta s url Hmr) as (ident & _ & _ & ->).
    by rewrite truthy_app_l. }
  split; [exact Henabled|]. unfold no_links_label. by rewrite Henabled.
Qed.

(** X7.  A record carries icon bytes only if they are not empty and are the
    contents of an entry of the archive whose name is the icon path of a
    Fabric manifest; in every other case, and whenever reading the icon
    raises, the record has no icon. *)
Theorem icon_data_sound (s : session) (jar : jar_path) (data : list Byte.byte) :
  mi_icon_data (make_mod_info s jar) = Some data →
  data ≠ []
  ∧ ∃ m icon entries e,
      fst (read_metadata jar) = Some m
      ∧ m_loader m = Some (Py.lit "fabric")
      ∧ m_icon m = Some icon
      ∧ jar_zip jar = Archive entries
      ∧ e ∈ entries ∧ filename e = icon ∧ contents e = Return data.
Proof.
  unfold make_mod_info.
  destruct (read_metadata_cases jar)
    as [[e ->]| [ -> | [(m & -> & Hl & _)|(m & -> & _ & _ & Hicon)]]];
    cbn [mi_icon_data fst]; try done.
  - destruct (m_icon m) as [icon|] eqn:Hicon; [|done].
    cbn [Py.truthy_opt default from_option id].
    destruct (Py.truthy icon); [|done]. unfold extract_icon_from_jar.
    destruct (jar_zip jar) as [msg|entries] eqn:Hzip; [done|].
    destruct (list_find (λ e, filename e = icon) (reverse entries))
      as [[i e]|] eqn:Hfind; [|done].
    destruct (contents e) as [[|b d]|msg] eqn:Hc; try done.
    intros [= <-]. split; [done|].
    apply list_find_Some in Hfind as (Hlook & Hname & _).
    exists m, icon, entries, e. split_and!; try done.
    apply elem_of_reverse. by eapply list_elem_of_lookup_2.
  - by rewrite Hicon.
Qed.

End Enrichment.

(** X6, witness: the record and the response of the example with the
    identifier "sodium". *)
Lemma link_only_for_identifier_witness :
  ∃ ident hits h,
    Some (Py.lit "sodium") = Some ident ∧ Py.truthy ident = true
    ∧ Reply 200 (Some [ {| slug := Some (Py.lit "indium");
                           title := Some (JString (Py.lit "Sodium")) |};
                        {| slug := Some (Py.lit "sodium");
                           title := Some (JString (Py.lit "Rendering engine")) |} ])
      = Reply 200 (Some hits)
    ∧ h ∈ hits ∧ slug h = Some ident
    ∧ Py.lit "https://modrinth.com/mod/sodium"
      = Py.lit "https://modrinth.com/mod/" ++ ident.
Proof.
  apply (proj2 (@link_only_for_identifier ascii_builtins
           {| m_loader := Some (Py.lit "fabric"); m_id := Some (Py.lit "sodium");
              m_name := Py.lit "Sodium"; m_env := Some (Py.lit "client");
              m_client_only := false; m_icon := None |}
           (λ _, Reply 200 (Some [ {| slug := Some (Py.lit "indium");
                                      title := Some (JString (Py.lit "Sodium")) |};
                                   {| slug := Some (Py.lit "sodium");
                                      title := Some (JString (Py.lit "Rendering engine")) |} ]))
           (Py.lit "https://modrinth.com/mod/sodium"))).
  reflexivity.
Defined.

(** X7, witness: the icon of the example archive. *)
Lemma icon_data_sound_witness :
  mi_icon_data (@make_mod_info manifest_builtins offline fabric_jar)
  = Some (bytes_of "PNG")
  ∧ bytes_of "PNG" ≠ [].
Proof.
  split; [reflexivity|].
  apply (@icon_data_sound manifest_builtins offline fabric_jar (bytes_of "PNG")).
  reflexivity.
Defined.

(** ** The event loop, continued *)

Lemma filter_insert_length {A} (P : A → Prop) `{!∀ x, Decision (P x)}
    (l : list A) (i : nat) (x y : A) :
  l !! i = Some x →
  length (filter P (<[i := y]> l)) + (if decide (P x) then 1 else 0)
  = length (filter P l) + (if decide (P y) then 1 else 0).
Proof.
  revert i. induction l as [|a l IH]; intros i Hi; [done|].
  destruct i as [|i]; simpl in Hi.
  - injection Hi as ->. change (<[0 := y]> (x :: l)) with (y :: l).
    rewrite !filter_cons. repeat case_decide; simpl; lia.
  - specialize (IH i Hi).
    change (<[S i := y]> (a :: l)) with (a :: <[i := y]> l).
    rewrite !filter_cons. repeat case_decide; simpl; lia.
Qed.

Lemma waiting_replicate (n : nat) :
  length (filter (λ t, t = Waiting) (replicate n Waiting)) = n.
Proof.
  induction n as [|n IH]; [done|]. simpl replicate.
  rewrite filter_cons. case_decide; [|done]. simpl. by rewrite IH.
Qed.

Section Progress.
Context `{Builtins}.
Variables (cfg : config) (w : world) (jars : list jar_path).

Lemma step_bookkeeping (ev : event) (s s' : loop_state) :
  step cfg w jars ev s = Some s' →
  length (tasks s) = length jars →
  length (tasks s') = length jars
  ∧ finished s' = finished s + length (progress (self s')) - length (progress (self s))
  ∧ length (progress (self s)) ≤ length (progress (self s'))
  ∧ S (2 * waiting s' + holding s') = 2 * waiting s + holding s.
Proof.
  unfold finished, waiting, holding. intros Hstep Hlen.
  destruct ev as [i|i].
  - apply step_acquire_inv in Hstep as (Hi & _ & -> & -> & _).
    rewrite length_insert. split; [done|].
    pose proof (filter_insert_length (λ t, is_finished t = true)
                  (tasks s) i Waiting Holding Hi) as Hfin.
    pose proof (filter_insert_length (λ t, t = Waiting)
                  (tasks s) i Waiting Holding Hi) as Hwait.
    pose proof (filter_insert_length (λ t, t = Holding)
                  (tasks s) i Waiting Holding Hi) as Hhold.
    repeat case_decide; try done. lia.
  - apply step_finish_inv in Hstep as (jar & res & Hi & _ & Hp & _ & -> & _).
    rewrite length_insert. split; [done|].
    destruct (process_effects cfg w jars jar (self s)) as (Hprog & _).
    rewrite Hp in Hprog. cbn [fst] in Hprog. rewrite Hprog, length_app. simpl.
    set (t := match res with Return _ => Done | Raise e => Failed e end).
    assert (Ht : is_finished t = true ∧ t ≠ Waiting ∧ t ≠ Holding)
      by (subst t; by destruct res).
    destruct Ht as (Hfin' & Hw' & Hh').
    pose proof (filter_insert_length (λ t, is_finished t = true)
                  (tasks s) i Holding t Hi) as Hfin.
    pose proof (filter_insert_length (λ t, t = Waiting)
                  (tasks s) i Holding t Hi) as Hwait.
    pose proof (filter_insert_length (λ t, t = Holding)
                  (tasks s) i Holding t Hi) as Hhold.
    repeat case_decide; try done. lia.
Qed.

Lemma exec_tasks_length (sched : list event) (s s' : loop_state) :
  exec cfg w jars sched s = Some s' →
  length (tasks s) = length jars → length (tasks s') = length jars.
Proof.
  revert s. induction sched as [|ev sched IH]; intros s; simpl.
  - by intros [= <-].
  - destruct (step cfg w jars ev s) as [s1|] eqn:Hstep; [|done].
    intros Hexec Hlen. apply (IH s1 Hexec).
    by apply (step_bookkeeping ev s s1 Hstep).
Qed.

Lemma initial_tasks_length : length (tasks (initial cfg jars)) = length jars.
Proof. simpl. apply length_replicate. Qed.

(** The state of the progress signals along a run, from any state. *)
Lemma exec_progress (sched : list event) (s s' : loop_state) :
  exec cfg w jars sched s = Some s' →
  length (tasks s) = length jars →
  length (progress (self s)) = finished s →
  length (all_mods (self s)) ≤ finished s →
  Forall (λ p, p.1 ≤ p.2 ∧ p.2 = length jars) (progress (self s)) →
  length (progress (self s')) = finished s'
  ∧ length (all_mods (self s')) ≤ finished s'
  ∧ Forall (λ p, p.1 ≤ p.2 ∧ p.2 = length jars) (progress (self s')).
Proof.
  revert s. induction sched as [|ev sched IH]; intros s; simpl.
  - by intros [= <-].
  - destruct (step cfg w jars ev s) as [s1|] eqn:Hstep; [|done].
    intros Hexec Hlen Hprog Hmods Hall.
    destruct (step_bookkeeping ev s s1 Hstep Hlen) as (Hlen1 & Hfin & Hmono & _).
    assert (Hbound : finished s1 ≤ length jars).
    { unfold finished. rewrite <- Hlen1. apply length_filter. }
    apply (IH s1 Hexec Hlen1); destruct ev as [i|i].
    + apply step_acquire_inv in Hstep as (_ & _ & _ & Hself & _).
      rewrite Hself in *. lia.
    + lia.
    + apply step_acquire_inv in Hstep as (_ & _ & _ & Hself & _).
      rewrite Hself in *. lia.
    + apply step_finish_inv in Hstep as (jar & res & _ & _ & Hp & _).
      destruct (process_effects cfg w jars jar (self s)) as (Hprog' & Hmods' & _).
      rewrite Hp in Hprog', Hmods'. cbn [fst] in Hprog', Hmods'.
      rewrite Hprog', length_app in Hfin. simpl in Hfin.
      rewrite Hmods', length_app. destruct (appends w jar); simpl; lia.
    + apply step_acquire_inv in Hstep as (_ & _ & _ & Hself & _).
      by rewrite Hself.
    + apply step_finish_inv in Hstep as (jar & res & _ & _ & Hp & _).
      destruct (process_effects cfg w jars jar (self s)) as (Hprog' & Hmods' & _).
      rewrite Hp in Hprog', Hmods'. cbn [fst] in Hprog', Hmods'.
      rewrite Hprog'. apply Forall_app. split; [done|].
      constructor; [|constructor]. simpl. split; [|done].
      rewrite Hprog', length_app in Hfin. simpl in Hfin.
      rewrite Hmods', length_app. destruct (appends w jar); simpl; lia.
Qed.

(** X8.  Every task that leaves [async with sem], by returning or by
    raising, emits exactly one progress pair; in every pair the count of
    records is at most the total, which is the number of archives.  So
    the progress never exceeds the whole, and [all_mods] never holds more
    records than tasks have ended. *)
Theorem progress_within_total (sched : list event) (s : loop_state) :
  exec cfg w jars sched (initial cfg jars) = Some s →
  length (progress (self s)) = finished s
  ∧ Forall (λ p, p.1 ≤ p.2 ∧ p.2 = length jars) (progress (self s))
  ∧ length (all_mods (self s)) ≤ finished s
  ∧ finished s ≤ length jars.
Proof.
  intros Hexec.
  assert (Hfin0 : finished (initial cfg jars) = 0).
  { unfold finished, initial. simpl.
    induction (length jars) as [|n IH]; [done|].
    simpl. by rewrite filter_cons_False by done. }
  destruct (exec_progress sched _ s Hexec initial_tasks_length)
    as (Hprog & Hmods & Hall); try (rewrite Hfin0; simpl; done || lia).
  { constructor. }
  split_and!; try done.
  unfold finished.
  rewrite <- (exec_tasks_length sched _ s Hexec initial_tasks_length).
  apply length_filter.
Qed.

(** X10.  [all_mods] holds the records in the order in which the tasks
    ended, one for each ended task that got as far as appending it. *)
Theorem records_in_completion_order (sched : list event) (s : loop_state) :
  exec cfg w jars sched (initial cfg jars) = Some s →
  all_mods (self s)
  = make_mod_info (w_session w)
      <$> filter (λ jar, appends w jar = true) (finished_jars jars sched).
Proof. intros Hexec. by rewrite (exec_records cfg w jars sched _ s Hexec). Qed.

(** The copies along a run, from any state. *)
Lemma exec_copies (sched : list event) (s s' : loop_state)
    (P : Py.str * category → Prop) :
  (∀ jar, jar ∈ jars → gen_folder cfg = true →
          w_copy2 w (jar_name jar) = None →
          P (jar_name jar, mi_category (make_mod_info (w_session w) jar))) →
  exec cfg w jars sched s = Some s' →
  Forall P (copied (self s)) → Forall P (copied (self s')).
Proof.
  intros HP. revert s. induction sched as [|ev sched IH]; intros s; simpl.
  - by intros [= <-].
  - destruct (step cfg w jars ev s) as [s1|] eqn:Hstep; [|done].
    intros Hexec Hall. apply (IH s1 Hexec). destruct ev as [i|i].
    + apply step_acquire_inv in Hstep as (_ & _ & _ & -> & _). done.
    + apply step_finish_inv in Hstep as (jar & res & _ & Hjar & Hp & _).
      destruct (process_effects cfg w jars jar (self s)) as (_ & _ & Hcopied).
      rewrite Hp in Hcopied. cbn [fst] in Hcopied.
      destruct Hcopied as [->|(Hgen & Hcopy & ->)]; [done|].
      apply Forall_app. split; [done|]. constructor; [|constructor].
      apply HP; [by eapply list_elem_of_lookup_2 | done | done].
Qed.

(** X9.  An archive is only ever copied into the folder of the category of
    its own record, and only when the folder option is on and the copy
    did not raise; without the folder option nothing is copied. *)
Theorem copies_follow_category (sched : list event) (s : loop_state) :
  exec cfg w jars sched (initial cfg jars) = Some s →
  Forall (λ p, gen_folder cfg = true
               ∧ ∃ jar, jar ∈ jars ∧ p.1 = jar_name jar
                        ∧ p.2 = mi_category (make_mod_info (w_session w) jar)
                        ∧ w_copy2 w (jar_name jar) = None)
         (copied (self s))
  ∧ (gen_folder cfg = false → copied (self s) = []).
Proof.
  intros Hexec.
  assert (Hall : Forall (λ p, gen_folder cfg = true
               ∧ ∃ jar, jar ∈ jars ∧ p.1 = jar_name jar
                        ∧ p.2 = mi_category (make_mod_info (w_session w) jar)
                        ∧ w_copy2 w (jar_name jar) = None)
         (copied (self s))).
  { apply (exec_copies sched (initial cfg jars) s); [|done|constructor].
    intros jar Hjar Hgen Hcopy. split; [done|]. exists jar. done. }
  split; [exact Hall|]. intros Hoff.
  destruct (copied (self s)) as [|p l]; [done|].
  apply Forall_cons in Hall as [[Hgen _] _]. congruence.
Qed.

(** X14.  With a worker budget of zero no task can ever pass the
    semaphore: over a non-empty listing no schedule is a complete run, and
    once the loop has been reached [analyze_mods] does not come to an end.
    The only way it ends is before the loop, with the exception of
    [mkdir]. *)
Theorem zero_budget_never_returns (sched : list event) :
  max_threads cfg = 0 → jars ≠ [] →
  ((gen_folder cfg = true → w_mkdir w = None) →
   analyze_mods cfg w jars sched = None)
  ∧ (∀ r, analyze_mods cfg w jars sched = Some r →
       gen_folder cfg = true
       ∧ ∃ e, w_mkdir w = Some e ∧ r_outcome r = Raise e
              ∧ all_mods (r_state r) = [] ∧ r_finished_dir r = false).
Proof.
  intros Hzero Hne.
  assert (Hloop : match exec cfg w jars sched (initial cfg jars) with
                  | Some s => raised s = None ∧ all_done s = false
                  | None => True
                  end).
  { destruct sched as [|ev sched]; cbn [exec].
    - split; [done|]. unfold all_done, initial. cbn [tasks].
      destruct jars; done.
    - assert (Hstuck : step cfg w jars ev (initial cfg jars) = None).
      { unfold step, initial. cbn [tasks sem_value]. rewrite Hzero.
        destruct ev as [i|i];
          destruct (replicate (length jars) Waiting !! i) as [t|] eqn:Hi;
          try done; apply lookup_replicate in Hi as [-> _]; done. }
      by rewrite Hstuck. }
  unfold analyze_mods.
  rewrite bool_decide_eq_false_2 by (by destruct jars).
  destruct (exec cfg w jars sched (initial cfg jars)) as [s|].
  - destruct Hloop as [-> ->].
    destruct (gen_folder cfg); [destruct (w_mkdir w) as [e|]|]; split;
      try done; try (intros Hmk; by specialize (Hmk eq_refl)).
    intros r [= <-]. split; [done|]. by exists e.
  - destruct (gen_folder cfg); [destruct (w_mkdir w) as [e|]|]; split;
      try done; try (intros Hmk; by specialize (Hmk eq_refl)).
    intros r [= <-]. split; [done|]. by exists e.
Qed.

(** X15.  A run never gets stuck and never runs on: with at least one slot,
    in every reachable state in which some task has not ended an event is
    enabled; and a schedule of the loop has exactly two events for every
    task that has ended and one for every task inside [async with sem],
    so at most two per archive. *)
Theorem loop_makes_progress (sched : list event) (s : loop_state) :
  exec cfg w jars sched (initial cfg jars) = Some s →
  length sched + 2 * waiting s + holding s = 2 * length jars
  ∧ length sched ≤ 2 * length jars
  ∧ (1 ≤ max_threads cfg →
     (∃ i t, tasks s !! i = Some t ∧ is_finished t = false) →
     ∃ ev s', step cfg w jars ev s = Some s').
Proof.
  intros Hexec.
  assert (Hmeasure : ∀ sch s0 s1, exec cfg w jars sch s0 = Some s1 →
            length (tasks s0) = length jars →
            length sch + 2 * waiting s1 + holding s1
            = 2 * waiting s0 + holding s0).
  { induction sch as [|ev sch IH]; intros s0 s1; simpl.
    - intros [= <-]. lia.
    - destruct (step cfg w jars ev s0) as [s2|] eqn:Hstep; [|done].
      intros Hex Hlen.
      destruct (step_bookkeeping ev s0 s2 Hstep Hlen) as (Hlen2 & _ & _ & Hm).
      specialize (IH s2 s1 Hex Hlen2). lia. }
  assert (Hinit : 2 * waiting (initial cfg jars) + holding (initial cfg jars)
                  = 2 * length jars).
  { rewrite initial_holding. unfold waiting, initial. cbn [tasks].
    rewrite waiting_replicate. lia. }
  pose proof (Hmeasure sched _ s Hexec initial_tasks_length) as Hm.
  split; [lia|]. split; [lia|].
  intros Hslots (i & t & Hi & Ht).
  pose proof (exec_tasks_length sched _ s Hexec initial_tasks_length) as Hlen.
  pose proof (exec_slots cfg w jars sched _ s Hexec) as Hsl.
  rewrite initial_holding in Hsl. simpl in Hsl.
  assert (Hfinish : ∀ j, tasks s !! j = Some Holding →
                      ∃ ev s', step cfg w jars ev s = Some s').
  { intros j Hj. exists (Finish j). simpl. rewrite Hj.
    destruct (jars !! j) as [jar|] eqn:Hjar.
    - destruct (process_jar_with_sem cfg w (length jars) jar (self s)). eauto.
    - apply lookup_ge_None in Hjar. apply lookup_lt_Some in Hj. lia. }
  destruct t; try done; [|by apply (Hfinish i)].
  destruct (sem_value s) as [|v] eqn:Hv.
  - assert (Hhold : 0 < holding s) by lia. unfold holding in Hhold.
    destruct (filter (λ t, t = Holding) (tasks s)) as [|t l] eqn:Hf;
      [simpl in Hhold; lia|].
    assert (Hin : t ∈ filter (λ t, t = Holding) (tasks s))
      by (rewrite Hf; apply list_elem_of_here).
    apply list_elem_of_filter in Hin as [-> Hin].
    apply list_elem_of_lookup in Hin as [j Hj]. by apply (Hfinish j).
  - exists (Acquire i). simpl. rewrite Hi, Hv. eauto.
Qed.

End Progress.

(** X8, witness: three archives and two slots; gamma.jar ends before
    alpha.jar, beta.jar has not started. *)
Lemma progress_within_total_witness :
  ∃ s, @exec ascii_builtins two_workers quiet_world three_jars
         [Acquire 0; Acquire 2; Finish 2; Finish 0]
         (initial two_workers three_jars) = Some s
       ∧ progress (self s) = [(1, 3); (2, 3)]
       ∧ length (progress (self s)) = finished s
       ∧ finished s ≤ length three_jars.
Proof.
  destruct (@exec ascii_builtins two_workers quiet_world three_jars
              [Acquire 0; Acquire 2; Finish 2; Finish 0]
              (initial two_workers three_jars)) as [s|] eqn:Hexec;
    [|vm_compute in Hexec; discriminate].
  exists s. split; [reflexivity|]. split.
  - vm_compute in Hexec. injection Hexec as <-. reflexivity.
  - destruct (@progress_within_total ascii_builtins two_workers quiet_world
                three_jars _ s Hexec) as (Hlen & _ & _ & Hfin).
    done.
Defined.

(** X9, witness: the same run; both ended archives are copied. *)
Lemma copies_follow_category_witness :
  ∃ s, @exec ascii_builtins two_workers quiet_world three_jars
         [Acquire 0; Acquire 2; Finish 2; Finish 0]
         (initial two_workers three_jars) = Some s
       ∧ copied (self s)
         = [(Py.lit "gamma.jar", ServerSide); (Py.lit "alpha.jar", ClientOnly)]
       ∧ Forall (λ p, gen_folder two_workers = true
                      ∧ ∃ jar, jar ∈ three_jars ∧ p.1 = jar_name jar
                          ∧ p.2 = mi_category
                                    (@make_mod_info ascii_builtins
                                       (w_session quiet_world) jar)
                          ∧ w_copy2 quiet_world (jar_name jar) = None)
                (copied (self s)).
Proof.
  destruct (@exec ascii_builtins two_workers quiet_world three_jars
              [Acquire 0; Acquire 2; Finish 2; Finish 0]
              (initial two_workers three_jars)) as [s|] eqn:Hexec;
    [|vm_compute in Hexec; discriminate].
  exists s. split; [reflexivity|]. split.
  - vm_compute in Hexec. injection Hexec as <-. reflexivity.
  - apply (@copies_follow_category ascii_builtins two_workers quiet_world
             three_jars _ s Hexec).
Defined.

(** X10, witness: the same run; the record of gamma.jar comes first. *)
Lemma records_in_completion_order_witness :
  ∃ s, @exec ascii_builtins two_workers quiet_world three_jars
         [Acquire 0; Acquire 2; Finish 2; Finish 0]
         (initial two_workers three_jars) = Some s
       ∧ mi_name <$> all_mods (self s) = [Py.lit "gamma.jar"; Py.lit "alpha.jar"].
Proof.
  destruct (@exec ascii_builtins two_workers quiet_world three_jars
              [Acquire 0; Acquire 2; Finish 2; Finish 0]
              (initial two_workers three_jars)) as [s|] eqn:Hexec;
    [|vm_compute in Hexec; discriminate].
  exists s. split; [reflexivity|].
  rewrite (@records_in_completion_order ascii_builtins two_workers quiet_world
             three_jars _ s Hexec).
  reflexivity.
Defined.

(** X14, witness: two archives and no slot. *)
Lemma zero_budget_never_returns_witness :
  @analyze_mods ascii_builtins
    {| gen_folder := true; gen_log := true; max_threads := 0 |}
    quiet_world two_jars [Acquire 0; Finish 0; Acquire 1; Finish 1] = None.
Proof.
  apply (@zero_budget_never_returns ascii_builtins);
    [reflexivity | discriminate | reflexivity].
Defined.

(** X15, witness: after the first acquisition another event is enabled. *)
Lemma loop_makes_progress_witness :
  ∃ s, @exec ascii_builtins two_workers quiet_world three_jars [Acquire 0]
         (initial two_workers three_jars) = Some s
       ∧ ∃ ev s', @step ascii_builtins two_workers quiet_world three_jars ev s
                  = Some s'.
Proof.
  destruct (@exec ascii_builtins two_workers quiet_world three_jars [Acquire 0]
              (initial two_workers three_jars)) as [s|] eqn:Hexec;
    [|vm_compute in Hexec; discriminate].
  exists s. split; [reflexivity|].
  destruct (@loop_makes_progress ascii_builtins two_workers quiet_world
              three_jars _ s Hexec) as (_ & _ & Hstep).
  apply Hstep; [simpl; lia|].
  exists 1, Waiting. split; [|reflexivity].
  vm_compute in Hexec. injection Hexec as <-. reflexivity.
Defined.

(** ** The run and its report, continued *)

Section Outcome.
Context `{Builtins}.
Variables (cfg : config) (w : world) (jars : list jar_path).


(** X18.  The log file is written in UTF-8, which cannot encode a
    surrogate.  In a run over a non-empty listing in which no task raises,
    the folders can be made and the log file can be opened,
    [analyze_mods] returns exactly when the line of every record can be
    encoded; it then writes the whole report and signals the output
    directory.  Otherwise it ends with the exception of [f.write] once
    every task has returned: the records are all in [all_mods], but the
    report is not complete and the output directory is not signalled.  A
    record whose name holds a surrogate is enough for that. *)
Theorem report_needs_encodable_lines (sched : list event) (r : run_result) :
  jars ≠ [] → gen_log cfg = true →
  (∀ jar, jar ∈ jars → w_fault w (jar_name jar) = None) →
  (gen_folder cfg = true → w_mkdir w = None) →
  gen_folder cfg || w_out_dir_exists w = true →
  analyze_mods cfg w jars sched = Some r →
  all_mods (r_state r) ≡ₚ make_mod_info (w_session w) <$> jars
  ∧ (Forall (λ jar, writable (make_mod_info (w_session w) jar) = true) jars →
     r_outcome r = Return ()
     ∧ r_report r = Some (report_text (all_mods (r_state r)))
     ∧ r_finished_dir r = true)
  ∧ (¬ Forall (λ jar, writable (make_mod_info (w_session w) jar) = true) jars →
     (∃ e, r_outcome r = Raise e) ∧ r_report r = None
     ∧ r_finished_dir r = false)
  ∧ (∀ m, Py.encodable (mi_name m) = false → writable m = false).
Proof.
  intros Hne Hlog Hquiet Hmk Hdir Hrun.
  destruct (analyze_mods_loop cfg w jars sched r Hne Hmk Hrun)
    as (s & Hexec & Hstate & Hend).
  destruct (exec_fault_free cfg w jars sched _ s Hquiet Hexec) as (Hr & Hlen & Hmods).
  { done. }
  { simpl. by rewrite length_replicate. }
  { simpl. by rewrite done_records_waiting. }
  rewrite Hr in Hend. pose proof Hend as Hdone. apply all_done_Forall in Hend.
  rewrite (done_records_all _ _ _ Hend Hlen) in Hmods.
  assert (Hall : Forall (λ m, writable m = true) (all_mods (self s))
                 ↔ Forall (λ jar, writable (make_mod_info (w_session w) jar) = true)
                          jars).
  { rewrite Hmods. apply Forall_fmap. }
  revert Hrun. unfold analyze_mods.
  rewrite bool_decide_eq_false_2 by (by destruct jars).
  assert ((if gen_folder cfg then w_mkdir w else None) = None) as ->.
  { destruct (gen_folder cfg); [by apply Hmk | done]. }
  rewrite Hexec, Hr, Hdone, Hlog, Hdir.
  destruct (write_report_cases (all_mods (self s)))
    as [[Hgood ->]|(Hbad & p & _ & _ & ->)]; intros [= <-];
    cbn [r_outcome r_state r_report r_finished_dir].
  - split; [done|]. split; [done|]. split; [|].
    + intros Hno. by apply Hall in Hgood.
    + intros m Hm. unfold writable, item_line.
      by rewrite !encodable_app, Hm, !andb_false_r.
  - split; [done|]. split; [|split].
    + intros Hyes. by apply Hall in Hyes.
    + intros _. eauto.
    + intros m Hm. unfold writable, item_line.
      by rewrite !encodable_app, Hm, !andb_false_r.
Qed.


(** The output directory is signalled exactly when the listing is not
    empty and [analyze_mods] returns without exception; a report is
    written only in such a run with the log option on, and in every such
    run with the log option on. *)
Theorem finished_dir_iff_returned (sched : list event) (r : run_result) :
  analyze_mods cfg w jars sched = Some r →
  (r_finished_dir r = true ↔ jars ≠ [] ∧ r_outcome r = Return ())
  ∧ (is_Some (r_report r) ↔ r_finished_dir r = true ∧ gen_log cfg = true).
Proof.
  unfold analyze_mods. case_bool_decide as Hempty.
  - apply length_zero_iff_nil in Hempty. intros [= <-].
    cbn [r_finished_dir r_outcome r_report]. split.
    + split; [done | by intros [? _]].
    + split; [by intros [? ?] | by intros [? _]].
  - assert (Hne : jars ≠ []) by (by destruct jars).
    intros Hrun.
    repeat match type of Hrun with
           | (if ?b then _ else _) = _ => destruct b eqn:?
           | match ?o with _ => _ end = _ => destruct o eqn:?
           end;
      try discriminate Hrun;
      injection Hrun as <-; cbn [r_finished_dir r_outcome r_report];
      (split; [split; [done || auto | by intros [_ ?] || done]
              |split; [by intros [? ?] || eauto | by intros [? ?] || eauto]]).
Qed.

End Outcome.

Lemma leb_antisym (a b : Py.str) :
  Py.leb a b = true → Py.leb b a = true → a = b.
Proof.
  revert b. induction a as [|x a IH]; intros [|y b]; simpl; try done.
  destruct (N.ltb_spec x y), (N.eqb_spec x y), (N.ltb_spec y x),
           (N.eqb_spec y x); try done; try lia.
  intros Hab Hba. f_equal; [done | by apply IH].
Qed.

(** Two sorted lists with the same elements are the same list, when the
    order is antisymmetric on these elements. *)
Lemma StronglySorted_unique_on {A} (R : A → A → Prop) (l1 l2 : list A) :
  StronglySorted R l1 → StronglySorted R l2 → l1 ≡ₚ l2 →
  (∀ a b, a ∈ l1 → b ∈ l1 → R a b → R b a → a = b) →
  l1 = l2.
Proof.
  intros Hs1. revert l2.
  induction Hs1 as [|x l1 Hs1 IH Hx]; intros l2 Hs2 Hperm Hanti.
  - by apply Permutation_nil_l in Hperm.
  - destruct Hs2 as [|y l2 Hs2 Hy].
    { by apply Permutation_nil_r in Hperm. }
    assert (x = y) as <-.
    { assert (Hxin : x ∈ y :: l2) by (rewrite <- Hperm; apply list_elem_of_here).
      assert (Hyin : y ∈ x :: l1) by (rewrite Hperm; apply list_elem_of_here).
      apply elem_of_cons in Hxin as [?|Hxin]; [done|].
      destruct (proj1 (elem_of_cons _ _ _) Hyin) as [?|Hyin']; [done|].
      rewrite Forall_forall in Hx. rewrite Forall_forall in Hy.
      apply Hanti; [apply list_elem_of_here | exact Hyin | auto | auto]. }
    f_equal. apply IH; [done | by eapply Permutation_cons_inv |].
    intros a b Ha Hb. apply Hanti; by apply list_elem_of_further.
Qed.

Section Buckets.
Context `{Builtins}.

Lemma sorted_unique_on {A} (key : A → Py.str) (l1 l2 : list A) :
  l1 ≡ₚ l2 →
  (∀ a b, a ∈ l1 → b ∈ l1 → key a = key b → a = b) →
  sorted key l1 = sorted key l2.
Proof.
  intros Hperm Hinj.
  apply (StronglySorted_unique_on (key_le key));
    [apply sorted_StronglySorted | apply sorted_StronglySorted | |].
  - by rewrite !sorted_perm.
  - intros a b Ha Hb Hab Hba. rewrite sorted_perm in Ha, Hb.
    apply Hinj; [done | done |]. by apply leb_antisym.
Qed.

(** X11.  The report does not depend on the order in which the tasks
    ended, as long as no two records share their lower-cased name: for two
    lists of records that are permutations of each other, the buckets and
    the text of the report are the same. *)
Theorem report_order_independent (mods1 mods2 : list mod_info) :
  mods1 ≡ₚ mods2 →
  (∀ a b, a ∈ mods1 → b ∈ mods1 →
          lower (mi_name a) = lower (mi_name b) → a = b) →
  (∀ sec, bucket sec mods1 = bucket sec mods2)
  ∧ report_text mods1 = report_text mods2.
Proof.
  intros Hperm Hinj.
  assert (Hbucket : ∀ sec, bucket sec mods1 = bucket sec mods2).
  { intros sec. unfold bucket, section_of. apply sorted_unique_on.
    - by rewrite Hperm.
    - intros a b Ha Hb. apply list_elem_of_filter in Ha as [_ Ha].
      apply list_elem_of_filter in Hb as [_ Hb]. by apply Hinj. }
  split; [exact Hbucket|].
  unfold report_text, section_text. simpl fmap. by rewrite !Hbucket.
Qed.

End Buckets.

(** X11, witness: two records in both orders. *)
Lemma report_order_independent_witness :
  @report_text ascii_builtins [named_info "zeta.jar"; named_info "Alpha.jar"]
  = @report_text ascii_builtins [named_info "Alpha.jar"; named_info "zeta.jar"].
Proof.
  apply (@report_order_independent ascii_builtins).
  - apply Permutation_swap.
  - intros a b Ha Hb.
    apply elem_of_cons in Ha as [->|Ha]; [|apply list_elem_of_singleton in Ha as ->];
      (apply elem_of_cons in Hb as [->|Hb];
       [|apply list_elem_of_singleton in Hb as ->]);
      try reflexivity; vm_compute; discriminate.
Defined.

(** Two names that differ only in case are kept in the order of arrival,
    so here the report does depend on which task ended first. *)
Example report_order_with_equal_keys :
  mi_name <$> @bucket ascii_builtins ClientOnly
                [named_info "Mod.jar"; named_info "mod.jar"]
  = [Py.lit "Mod.jar"; Py.lit "mod.jar"]
  ∧ mi_name <$> @bucket ascii_builtins ClientOnly
                  [named_info "mod.jar"; named_info "Mod.jar"]
    = [Py.lit "mod.jar"; Py.lit "Mod.jar"].
Proof. split; reflexivity. Qed.


(** X18, witness: a listing with an archive whose file name holds a
    surrogate; every task returns, then [f.write] raises. *)
Lemma report_needs_encodable_lines_witness :
  ∃ r, @analyze_mods ascii_builtins default_config quiet_world
         [forge_jar "alpha" "clientOnly=true"; latin1_jar] (sequential 2) = Some r
       ∧ length (all_mods (r_state r)) = 2
       ∧ (∃ e, r_outcome r = Raise e) ∧ r_report r = None
       ∧ r_finished_dir r = false.
Proof.
  destruct (@analyze_mods ascii_builtins default_config quiet_world
              [forge_jar "alpha" "clientOnly=true"; latin1_jar] (sequential 2))
    as [r|] eqn:Hrun; [|vm_compute in Hrun; discriminate].
  exists r. split; [reflexivity|].
  destruct (@report_needs_encodable_lines ascii_builtins default_config
              quiet_world [forge_jar "alpha" "clientOnly=true"; latin1_jar]
              (sequential 2) r) as (Hmods & _ & Hbad & _);
    [discriminate | reflexivity | intros; reflexivity | reflexivity
    | reflexivity | exact Hrun |].
  split; [by rewrite Hmods|]. apply Hbad.
  intros Hall. apply Forall_cons in Hall as [_ Hall].
  apply Forall_cons in Hall as [Hlatin _]. vm_compute in Hlatin. discriminate.
Defined.


(** The message of the encoder for that file name, as CPython words it. *)
Example latin1_name_message :
  r_outcome <$> @analyze_mods ascii_builtins default_config quiet_world
                  [latin1_jar] (sequential 1)
  = Some (Raise (Py.lit "'utf-8' codec can't encode character '\udce9' in position 9: surrogates not allowed")).
Proof. vm_compute. reflexivity. Qed.

(** The same for two archives with the default options. *)
Lemma finished_dir_iff_returned_witness :
  ∃ r, @analyze_mods ascii_builtins default_config quiet_world two_jars
         (sequential 2) = Some r
       ∧ r_finished_dir r = true ∧ is_Some (r_report r).
Proof.
  destruct (@analyze_mods ascii_builtins default_config quiet_world two_jars
              (sequential 2)) as [r|] eqn:Hrun;
    [|vm_compute in Hrun; discriminate].
  exists r. split; [reflexivity|].
  destruct (@finished_dir_iff_returned ascii_builtins default_config
              quiet_world two_jars (sequential 2) r Hrun) as [Hfin Hrep].
  assert (Hdir : r_finished_dir r = true).
  { apply Hfin. split; [discriminate|].
    vm_compute in Hrun. injection Hrun as <-. reflexivity. }
  split; [exact Hdir|]. apply Hrep. split; [exact Hdir | reflexivity].
Defined.

(** ** Tasks, once more *)

Section Once.
Context `{Builtins}.
Variables (cfg : config) (jars : list jar_path).

Lemma step_keeps_finished (w : world) (ev : event) (s s' : loop_state)
    (i : nat) (t : task_state) :
  step cfg w jars ev s = Some s' →
  tasks s !! i = Some t → is_finished t = true →
  tasks s' !! i = Some t ∧ ev ≠ Finish i.
Proof.
  intros Hstep Hi Ht. destruct ev as [j|j].
  - apply step_acquire_inv in Hstep as (Hj & _ & -> & _).
    split; [|done]. destruct (decide (j = i)) as [->|Hne].
    + rewrite Hi in Hj. by injection Hj as ->.
    + by rewrite list_lookup_insert_ne.
  - apply step_finish_inv in Hstep as (jar & res & Hj & _ & _ & _ & -> & _).
    destruct (decide (j = i)) as [->|Hne].
    + rewrite Hi in Hj. by injection Hj as ->.
    + split; [by rewrite list_lookup_insert_ne | congruence].
Qed.

Lemma exec_no_refinish (w : world) (sched : list event) (s s' : loop_state)
    (i : nat) (t : task_state) :
  exec cfg w jars sched s = Some s' →
  tasks s !! i = Some t → is_finished t = true →
  i ∉ finish_indices sched.
Proof.
  revert s. induction sched as [|ev sched IH]; intros s; simpl.
  - intros _ _ _. apply not_elem_of_nil.
  - destruct (step cfg w jars ev s) as [s1|] eqn:Hstep; [|done].
    intros Hexec Hi Ht.
    destruct (step_keeps_finished w ev s s1 i t Hstep Hi Ht) as [Hi1 Hev].
    specialize (IH s1 Hexec Hi1 Ht). unfold finish_indices in *.
    destruct ev as [j|j]; cbn [omap list_omap]; [done|].
    apply not_elem_of_cons. split; [congruence | done].
Qed.

(** X17.  No archive is processed twice: along a schedule of the loop the
    tasks that end are pairwise distinct, each is the task of an archive
    of the listing, and their number is the number of tasks that have
    ended. *)
Theorem each_archive_once (w : world) (sched : list event) (s : loop_state) :
  exec cfg w jars sched (initial cfg jars) = Some s →
  NoDup (finish_indices sched)
  ∧ Forall (λ i, i < length jars) (finish_indices sched)
  ∧ length (finish_indices sched) = finished s
  ∧ finished_jars jars sched = omap (λ i, jars !! i) (finish_indices sched).
Proof.
  intros Hexec.
  assert (Hgen : ∀ sch s0 s1, exec cfg w jars sch s0 = Some s1 →
            length (tasks s0) = length jars →
            NoDup (finish_indices sch)
            ∧ Forall (λ i, i < length jars) (finish_indices sch)
            ∧ length (finish_indices sch) + finished s0 = finished s1).
  { induction sch as [|ev sch IH]; intros s0 s1; simpl.
    - intros [= <-] _. split; [constructor|]. split; [constructor | done].
    - destruct (step cfg w jars ev s0) as [s2|] eqn:Hstep; [|done].
      intros Hex Hlen.
      destruct (step_bookkeeping cfg w jars ev s0 s2 Hstep Hlen)
        as (Hlen2 & Hfin & Hmono & _).
      destruct (IH s2 s1 Hex Hlen2) as (Hnd & Hall & Hcount).
      unfold finish_indices in *. destruct ev as [j|j]; cbn [omap list_omap].
      + apply step_acquire_inv in Hstep as (_ & _ & _ & Hself & _).
        rewrite Hself in Hfin. split; [done|]. split; [done|]. lia.
      + pose proof Hstep as Hstep'.
        apply step_finish_inv in Hstep'
          as (jar & res & Hj & Hjar & Hp & _ & Htasks & _).
        destruct (process_effects cfg w jars jar (self s0)) as (Hprog & _).
        rewrite Hp in Hprog. cbn [fst] in Hprog.
        rewrite Hprog, length_app in Hfin. simpl in Hfin.
        split; [|split].
        * constructor; [|done].
          apply (exec_no_refinish w sch s2 s1 j
                   (match res with Return _ => Done | Raise e => Failed e end));
            [done | | by destruct res].
          rewrite Htasks. apply list_lookup_insert_eq.
          by eapply lookup_lt_Some.
        * constructor; [|done]. by eapply lookup_lt_Some.
        * simpl. lia. }
  destruct (Hgen sched _ s Hexec) as (Hnd & Hall & Hcount).
  { simpl. apply length_replicate. }
  split_and!; try done.
  - rewrite <- Hcount. unfold finished, initial. cbn [tasks].
    clear. induction (length jars) as [|n IH]; [done|].
    simpl replicate. rewrite filter_cons. case_decide; [done|]. exact IH.
  - unfold finished_jars, finish_indices. clear.
    induction sched as [|[j|j] sch IH]; cbn [omap list_omap]; [done|done|].
    rewrite <- IH. by destruct (jars !! j).
Qed.

(** X16.  Whether the copies succeed has no influence on the rest of the
    run: in two worlds that differ in the copy step only (same catalog,
    same faults, same outcome of [mkdir], same output directory), the same
    schedule gives the same outcome, the same records, the same progress
    signals and the same report. *)
Theorem copy_step_is_contained (w1 w2 : world) (sched : list event)
    (r1 : run_result) :
  w_session w1 = w_session w2 →
  (∀ name, w_fault w1 name = w_fault w2 name) →
  w_mkdir w1 = w_mkdir w2 →
  w_out_dir_exists w1 = w_out_dir_exists w2 →
  analyze_mods cfg w1 jars sched = Some r1 →
  ∃ r2, analyze_mods cfg w2 jars sched = Some r2
        ∧ r_outcome r2 = r_outcome r1
        ∧ all_mods (r_state r2) = all_mods (r_state r1)
        ∧ progress (r_state r2) = progress (r_state r1)
        ∧ r_report r2 = r_report r1
        ∧ r_finished_dir r2 = r_finished_dir r1.
Proof.
  intros Hsession Hfault Hmk Hdir.
  assert (Hexec : ∀ sch s1 s2 s1',
            exec cfg w1 jars sch s1 = Some s1' →
            sem_value s2 = sem_value s1 → tasks s2 = tasks s1 →
            raised s2 = raised s1 →
            all_mods (self s2) = all_mods (self s1) →
            progress (self s2) = progress (self s1) →
            ∃ s2', exec cfg w2 jars sch s2 = Some s2'
                   ∧ tasks s2' = tasks s1' ∧ raised s2' = raised s1'
                   ∧ all_mods (self s2') = all_mods (self s1')
                   ∧ progress (self s2') = progress (self s1')).
  { induction sch as [|ev sch IH]; intros s1 s2 s1'; simpl.
    - intros [= <-]. eauto 10.
    - destruct (step cfg w1 jars ev s1) as [s3|] eqn:Hstep; [|done].
      intros Hex Hsem Htasks Hraised Hmods Hprog.
      destruct ev as [i|i].
      + apply step_acquire_inv in Hstep as (Hi & Hv & Ht3 & Hself & Hr3).
        cbn [step]. rewrite Htasks, Hi, Hsem, Hv.
        apply (IH s3 _ s1' Hex); cbn [sem_value tasks raised self];
          congruence.
      + apply step_finish_inv in Hstep
          as (jar & res & Hi & Hjar & Hp & Hv & Ht3 & Hr3).
        cbn [step]. rewrite Htasks, Hi, Hjar.
        pose proof (process_result cfg w1 jars jar (self s1)) as Hres1.
        pose proof (process_result cfg w2 jars jar (self s2)) as Hres2.
        destruct (process_effects cfg w1 jars jar (self s1)) as (Hp1 & Hm1 & _).
        destruct (process_effects cfg w2 jars jar (self s2)) as (Hp2 & Hm2 & _).
        rewrite Hp in Hres1, Hp1, Hm1. cbn [fst snd] in Hres1, Hp1, Hm1.
        destruct (process_jar_with_sem cfg w2 (length jars) jar (self s2))
          as [st2 res2].
        cbn [fst snd] in Hres2, Hp2, Hm2.
        assert (res2 = res) as -> by (rewrite Hres1, Hres2, Hfault; done).
        assert (Hmods3 : all_mods st2 = all_mods (self s3)).
        { rewrite Hm1, Hm2, Hmods, Hsession. unfold appends.
          by rewrite Hfault. }
        apply (IH s3 _ s1' Hex); cbn [sem_value tasks raised self];
          first [ congruence
                | by rewrite Hraised, Hr3
                | by rewrite Hp1, Hp2, Hmods3, Hprog ]. }
  unfold analyze_mods. case_bool_decide.
  - intros [= <-]. eauto 10.
  - rewrite <- Hmk.
    destruct (if gen_folder cfg then w_mkdir w1 else None) as [e|].
    { intros [= <-]. eexists. split; [reflexivity|]. done. }
    destruct (exec cfg w1 jars sched (initial cfg jars)) as [s1'|] eqn:Hex1;
      [|done].
    destruct (Hexec sched _ (initial cfg jars) s1' Hex1)
      as (s2' & -> & Htasks & Hraised & Hmods & Hprog); try done.
    rewrite Hraised. unfold all_done. rewrite Htasks, <- Hdir, Hmods.
    destruct (raised s1') as [e|].
    { intros [= <-]. eexists. split; [reflexivity|]. done. }
    destruct (forallb _ (tasks s1')); [|done].
    destruct (gen_log cfg);
      [destruct (gen_folder cfg || w_out_dir_exists w1);
       [destruct (write_report (all_mods (self s1')))|]|];
      intros [= <-]; (eexists; split; [reflexivity|]);
      cbn [r_outcome r_state r_report r_finished_dir]; rewrite ?Hmods; done.
Qed.

End Once.

(** X17, witness: the run over three archives in which two tasks end. *)
Lemma each_archive_once_witness :
  NoDup (finish_indices [Acquire 0; Acquire 2; Finish 2; Finish 0])
  ∧ finish_indices [Acquire 0; Acquire 2; Finish 2; Finish 0] = [2; 0].
Proof.
  split; [|reflexivity].
  destruct (@exec ascii_builtins two_workers quiet_world three_jars
              [Acquire 0; Acquire 2; Finish 2; Finish 0]
              (initial two_workers three_jars)) as [s|] eqn:Hexec;
    [|vm_compute in Hexec; discriminate].
  apply (@each_archive_once ascii_builtins two_workers three_jars quiet_world
           _ s Hexec).
Defined.

(** X16, witness: the same run where every copy raises. *)
Lemma copy_step_is_contained_witness :
  ∃ r1 r2,
    @analyze_mods ascii_builtins default_config quiet_world two_jars
      (sequential 2) = Some r1
    ∧ @analyze_mods ascii_builtins default_config read_only_world two_jars
        (sequential 2) = Some r2
    ∧ r_outcome r2 = r_outcome r1
    ∧ r_report r2 = r_report r1
    ∧ copied (r_state r1) ≠ copied (r_state r2).
Proof.
  destruct (@analyze_mods ascii_builtins default_config quiet_world two_jars
              (sequential 2)) as [r1|] eqn:Hrun;
    [|vm_compute in Hrun; discriminate].
  destruct (@copy_step_is_contained ascii_builtins default_config two_jars
              quiet_world read_only_world (sequential 2) r1)
    as (r2 & Hrun2 & Hout & _ & _ & Hrep & _);
    [reflexivity | reflexivity | reflexivity | reflexivity | exact Hrun |].
  exists r1, r2. split; [reflexivity|]. split; [exact Hrun2|].
  split; [exact Hout|]. split; [exact Hrep|].
  vm_compute in Hrun, Hrun2. injection Hrun as <-. injection Hrun2 as <-.
  discriminate.
Defined.
